(** * ImageColorizer: the rule-based colorizers

    A shallow embedding of [colorizers/hsv_colorizer.py] and
    [colorizers/pseudocolor_colorizer.py].

    Conventions of the embedding.
    - A numpy array is a shape together with its samples in row-major
      (C) order.
    - Samples are exact rationals in canonical form ([Qc]): the value of a
      [uint8], [float32] or [float64] sample.  Arithmetic on them is exact
      and [astype(np.float32)] is the identity on values: the rounding of
      the [float32] and [float64] operations is not part of this model.
    - Whether two calls return the same samples depends on the rounding.
      Module [Float32] embeds [colorize_hsv_advanced] a second time, on an
      [(H, W)] image of 8-bit samples, in the [float32] and [float64]
      arithmetic that numpy and scikit-image carry out; the effect of a
      hue shift of one is settled there.
    - A Python call is a computation that prints lines on stdout and either
      returns a value or raises an exception, named by its class.
    - The numeric kernels of the external libraries (the luminance weights
      of [skimage.color.rgb2gray], the per-pixel conversion of
      [skimage.color.hsv2rgb], the tables of [matplotlib.cm]) are
      parameters of the development. *)

From Stdlib Require Import QArith Qcanon Qround Qabs Lqa Ascii SpecFloat.
From stdpp Require Import base numbers list strings gmap.

(** ** Samples *)

Module Sample.
Local Open Scope Qc_scope.

(** The decimal literal [n/d]. *)
Definition qc (n : Z) (d : positive) : Qc := Q2Qc (n # d).

Definition of_Z (z : Z) : Qc := Q2Qc (inject_Z z).

Definition floor (x : Qc) : Z := Qfloor x.

(** [np.maximum], [np.minimum] and [np.clip] on one sample. *)
Definition maximum (x y : Qc) : Qc := if decide (x < y) then y else x.
Definition minimum (x y : Qc) : Qc := if decide (y < x) then y else x.
Definition clip (x lo hi : Qc) : Qc := minimum (maximum x lo) hi.

(** [x % m] of Python and numpy: the remainder has the sign of [m]. *)
Definition pymod (x m : Qc) : Qc := x - of_Z (floor (x / m)) * m.

(** Membership in the unit interval. *)
Definition unit (x : Qc) : Prop := 0 <= x /\ x <= 1.
End Sample.

(** ** Python calls: stdout and exceptions *)

Module Py.
(** An exception is named by its class. *)
Definition exn : Type := string.

Definition ValueError : exn := "ValueError".
Definition IndexError : exn := "IndexError".
Definition TypeError : exn := "TypeError".
Definition KeyError : exn := "KeyError".

Inductive result (A : Type) : Type :=
| Ok (a : A)
| Raise (e : exn).
Arguments Ok {A} a.
Arguments Raise {A} e.

(** The lines printed so far, and the outcome. *)
Definition py (A : Type) : Type := (list string * result A)%type.

Definition raise {A} (e : exn) : py A := ([], Raise e).
Definition print (line : string) : py () := ([line], Ok ()).

#[global] Instance py_ret : MRet py := λ A a, ([], Ok a).

#[global] Instance py_bind : MBind py := λ A B f m,
  match m with
  | (out, Ok a) => let '(out', r) := f a in (out ++ out', r)
  | (out, Raise e) => (out, Raise e)
  end.

(** The call raises: nothing in this program catches an exception, so it
    reaches the caller. *)
Definition raises {A} (m : py A) (e : exn) : Prop :=
  exists out, m = (out, Raise e).
End Py.

Import Py.

(** ** numpy arrays *)

Module Np.
Import Sample.
Local Open Scope Qc_scope.

Record ndarray : Type := NdArray { shape : list nat; data : list Qc }.

Definition product (sh : list nat) : nat := foldr Nat.mul 1%nat sh.

Definition ndim (a : ndarray) : nat := length (shape a).

(** Every array numpy builds has as many samples as its shape says. *)
Definition wf (a : ndarray) : Prop := length (data a) = product (shape a).

(** [a.max()]: a zero-size array has no maximum. *)
Definition max (a : ndarray) : py Qc :=
  match data a with
  | [] => raise ValueError
  | x :: xs => mret (foldl maximum x xs)
  end.

(** [a.astype(np.float32)] and [a.copy()] keep every value. *)
Definition astype_float32 (a : ndarray) : ndarray := a.
Definition copy (a : ndarray) : ndarray := a.

(** An expression in one array and scalars, sample by sample. *)
Definition map (f : Qc -> Qc) (a : ndarray) : ndarray :=
  NdArray (shape a) (f <$> data a).

Definition clip (a : ndarray) (lo hi : Qc) : ndarray :=
  map (fun x => Sample.clip x lo hi) a.

Definition zeros (sh : list nat) : ndarray :=
  NdArray sh (replicate (product sh) 0).

(** [H, W = a.shape] *)
Definition unpack2 (sh : list nat) : py (nat * nat) :=
  match sh with
  | [h; w] => mret (h, w)
  | _ => raise ValueError
  end.

(** The samples of channel [c] of the pixels [p], [p+1], ... of an array
    with [n] channels are overwritten with [vals]. *)
Fixpoint store_channel (n c p : nat) (vals d : list Qc) : list Qc :=
  match vals with
  | [] => d
  | v :: vals => store_channel n c (S p) vals (<[(p * n + c)%nat := v]> d)
  end.

(** [a[:, :, c] = src] *)
Definition set_channel (a : ndarray) (c : nat) (src : ndarray) : py ndarray :=
  match shape a with
  | [h; w; n] =>
      if decide (c < n)%nat then
        if decide (shape src = [h; w]) then
          mret (NdArray (shape a) (store_channel n c 0 (data src) (data a)))
        else raise ValueError
      else raise IndexError
  | _ => raise IndexError
  end.

(** The first [k] samples of each of [count] consecutive blocks of
    [n] samples. *)
Fixpoint take_each (n k count : nat) (d : list Qc) : list Qc :=
  match count with
  | O => []
  | S count => take k d ++ take_each n k count (drop n d)
  end.

(** [a[:, :, :3]] *)
Definition slice_axis2_to3 (a : ndarray) : py ndarray :=
  match shape a with
  | h :: w :: c :: rest =>
      mret (NdArray (h :: w :: Nat.min c 3 :: rest)
              (take_each (c * product rest) (Nat.min c 3 * product rest)
                 (h * w) (data a)))
  | _ => raise IndexError
  end.
End Np.

Import Np.

(** ** The colormaps of [matplotlib.cm] that the registry names *)

Inductive colormap : Type :=
| cm_jet | cm_hot | cm_cool | cm_viridis | cm_plasma | cm_inferno | cm_magma
| cm_spring | cm_summer | cm_autumn | cm_winter | cm_rainbow | cm_turbo
| cm_hsv | cm_seismic | cm_terrain.

(** What [colormap(X)] returns: an array, or a tuple when [X] is a scalar. *)
Inductive cm_value : Type :=
| CmArray (a : ndarray)
| CmTuple (t : list Qc).

(** ** Strings *)

(** [s.lower()] on the ASCII letters. *)
Definition lower_ascii (c : ascii) : ascii :=
  let n := nat_of_ascii c in
  if (65 <=? n)%nat && (n <=? 90)%nat then ascii_of_nat (n + 32) else c.

Fixpoint lower (s : string) : string :=
  match s with
  | EmptyString => EmptyString
  | String c s => String (lower_ascii c) (lower s)
  end.

(** ** A dictionary in insertion order *)

Definition dict_keys {V} (d : list (string * V)) : list string := d.*1.

Definition dict_in {V} (k : string) (d : list (string * V)) : bool :=
  bool_decide (k ∈ dict_keys d).

Fixpoint dict_get {V} (d : list (string * V)) (k : string) : py V :=
  match d with
  | [] => raise KeyError
  | (k', v) :: d => if decide (k' = k) then mret v else dict_get d k
  end.

(** ** One choice of the library kernels

    The theorems below hold for every choice of the three kernels.  To run
    the colorizers on concrete images one choice is fixed here: the
    luminance weights and the six hue sectors that scikit-image documents,
    and two-colour ramps in place of the tables of matplotlib. *)

Module Kernels.
Import Sample.
Local Open Scope Qc_scope.

Definition luma (r g b : Qc) : Qc :=
  qc 2125 10000 * r + qc 7154 10000 * g + qc 721 10000 * b.

Definition hsv2rgb_px (h s v : Qc) : Qc * Qc * Qc :=
  let hi := floor (h * qc 6 1) in
  let f := h * qc 6 1 - of_Z hi in
  let p := v * (1 - s) in
  let q := v * (1 - f * s) in
  let t := v * (1 - (1 - f) * s) in
  match (hi mod 6)%Z with
  | 0%Z => (v, t, p)
  | 1%Z => (q, v, p)
  | 2%Z => (p, v, t)
  | 3%Z => (p, q, v)
  | 4%Z => (t, p, v)
  | _ => (v, p, q)
  end.

Definition cm_lookup (c : colormap) (x : Qc) : Qc * Qc * Qc * Qc :=
  let x := clip x 0 1 in
  match c with
  | cm_jet => (x, 0, 1 - x, 1)
  | cm_hot => (1, x, 0, 1)
  | cm_viridis => (0, x, 1 - x, 1)
  | _ => (x, x, x, 1)
  end.
End Kernels.

(** ** Concrete images *)

Module Examples.
Import Sample.
Local Open Scope Qc_scope.

(** A 2 x 2 grayscale image already scaled to the unit interval. *)
Definition gray_2x2 : ndarray :=
  NdArray [2; 2]%nat [0; qc 1 2; 1; qc 1 4].

(** A 1 x 2 colour image with 8-bit samples: a red and a dark gray pixel. *)
Definition rgb_1x2 : ndarray :=
  NdArray [1; 2; 3]%nat [qc 255 1; 0; 0; qc 51 1; qc 51 1; qc 51 1].

(** A 1 x 3 grayscale image with 8-bit samples. *)
Definition gray_1x3 : ndarray :=
  NdArray [1; 3]%nat [0; qc 51 1; qc 255 1].

(** An image without pixels, and a 1 x 1 image with four channels. *)
Definition empty_image : ndarray := NdArray [0; 0]%nat [].
Definition rgba_1x1 : ndarray := NdArray [1; 1; 4]%nat [qc 1 2; qc 1 2; qc 1 2; 1].

(** A 1 x 2 grayscale image with 16-bit samples, and a stack of images:
    an array with four axes. *)
Definition gray16_1x2 : ndarray := NdArray [1; 2]%nat [qc 51 1; qc 510 1].
Definition stack_1x1x4x2 : ndarray :=
  NdArray [1; 1; 4; 2]%nat [0; qc 1 8; qc 1 4; qc 3 8; qc 1 2; qc 5 8; qc 3 4; 1].

(** What a call printed, and the shape and samples it returned or the
    exception it raised. *)
Definition run (m : py ndarray) : list string * (exn + list nat * list Q) :=
  match m with
  | (out, Ok a) => (out, inr (shape a, this <$> data a))
  | (out, Raise e) => (out, inl e)
  end.
End Examples.

(** ** [colorize_hsv_advanced] in floating-point arithmetic

    On an [(H, W)] array of 8-bit samples numpy computes as follows.  The
    samples become [float32]; a Python scalar met by a [float32] array is
    first rounded to [float32], and the operation is then the correctly
    rounded [float32] one; [np.zeros] is [float64], and the channels are
    stored in it without loss; scikit-image converts in [float64].  A
    floating-point number is a [spec_float]; the operations of IEEE 754,
    rounding to nearest even, are those of the standard library, at
    precision 24 for [float32] and 53 for [float64]. *)

Module Float32.
Local Open Scope Z_scope.

Definition f32_of_Z (z : Z) : spec_float := binary_normalize 24 128 z 0 false.
Definition f64_of_Z (z : Z) : spec_float := binary_normalize 53 1024 z 0 false.

(** The Python literal with the decimal value [n/d]: the nearest [float64]. *)
Definition literal (n d : Z) : spec_float := SFdiv 53 1024 (f64_of_Z n) (f64_of_Z d).

(** Conversions between the two formats: rounding to [float32], exact to
    [float64]. *)
Definition to_f32 (x : spec_float) : spec_float :=
  match x with
  | S754_finite s m e => binary_normalize 24 128 (if s then Zneg m else Zpos m) e s
  | _ => x
  end.

Definition to_f64 (x : spec_float) : spec_float :=
  match x with
  | S754_finite s m e => binary_normalize 53 1024 (if s then Zneg m else Zpos m) e s
  | _ => x
  end.


Definition add32 := SFadd 24 128.
Definition sub32 := SFsub 24 128.
Definition mul32 := SFmul 24 128.
Definition div32 := SFdiv 24 128.
Definition sub64 := SFsub 53 1024.
Definition mul64 := SFmul 53 1024.

(** [fmod(x, 1)]: the fractional part, with the sign of [x]; it is exact. *)
Definition fmod1 (x : spec_float) : spec_float :=
  match x with
  | S754_finite s m e =>
      if 0 <=? e then S754_zero s
      else let fraction := Zpos m mod 2 ^ (- e) in
           binary_normalize 24 128 (if s then - fraction else fraction) e s
  | S754_zero s => S754_zero s
  | _ => S754_nan
  end.

(** [x % 1.0] of numpy on [float32]: [fmod], moved into [[0, 1]] by adding
    the divisor when it is negative. *)
Definition remainder1 (x : spec_float) : spec_float :=
  match fmod1 x with
  | S754_zero _ => S754_zero false
  | S754_finite true m e => add32 (S754_finite true m e) (f32_of_Z 1)
  | r => r
  end.

(** [np.clip(x, lo, hi)], that is [minimum(maximum(x, lo), hi)]. *)
Definition clip (x lo hi : spec_float) : spec_float :=
  let m := if SFltb x lo then lo else x in
  if SFltb hi m then hi else m.

(** [np.floor], as an integer. *)
Definition floor (x : spec_float) : Z :=
  match x with
  | S754_finite s m e =>
      let v := if s then Zneg m else Zpos m in
      if 0 <=? e then v * 2 ^ e else v / 2 ^ (- e)
  | _ => 0
  end.

(** The image: an [(h, w)] array of 8-bit samples, with at least one. *)
Definition valid_image (h w : nat) (samples : list Z) : bool :=
  andb (bool_decide (length samples = (h * w)%nat))
    (andb (bool_decide (samples <> []))
       (forallb (fun s => andb (0 <=? s) (s <=? 255)) samples)).

(** [astype(np.float32) / 255.0] on one sample. *)
Definition scaled (s : Z) : spec_float :=
  div32 (f32_of_Z s) (to_f32 (literal 255 1)).

(** [img_rgb.max() > 1.0] and the two branches of the normalization; the
    maximum of an empty array raises [ValueError].  An array with two axes
    is its own grayscale image. *)
Definition img_rgb_normalized (samples : list Z) : py (list spec_float) :=
  match samples with
  | [] => raise ValueError
  | x :: xs =>
      if 1 <? foldl Z.max x xs
      then mret (scaled <$> samples)
      else mret (f32_of_Z <$> samples)
  end.

(** [(0.6 - 0.45 * img_gray + hue_shift) % 1.0] *)
Definition H_channel (hue_shift I : spec_float) : spec_float :=
  remainder1
    (add32 (sub32 (to_f32 (literal 6 10)) (mul32 (to_f32 (literal 45 100)) I))
       (to_f32 hue_shift)).

(** [np.clip(4 * img_gray * (1 - img_gray) * saturation_boost, 0, 1)] *)
Definition S_channel (saturation_boost I : spec_float) : spec_float :=
  clip (mul32 (mul32 (mul32 (f32_of_Z 4) I) (sub32 (f32_of_Z 1) I))
          (to_f32 saturation_boost))
    (f32_of_Z 0) (f32_of_Z 1).

(** [img_hsv]: the three channels stored into the [float64] array of
    [np.zeros((H, W, 3))], pixel by pixel. *)
Definition img_hsv (hue_shift saturation_boost : spec_float)
    (img_gray : list spec_float) : list (spec_float * spec_float * spec_float) :=
  (fun I => (to_f64 (H_channel hue_shift I),
             to_f64 (S_channel saturation_boost I),
             to_f64 I)) <$> img_gray.

(** [np.clip(img_rgb_colorized, 0, 1)] *)
Definition clip_unit (img : list spec_float) : list spec_float :=
  (fun x => clip x (f64_of_Z 0) (f64_of_Z 1)) <$> img.

(** [colorize_hsv_advanced] on an [(h, w)] array of 8-bit samples, over the
    conversion [hsv2rgb_px] of one pixel: the shape and the [float64]
    samples of the result. *)
Definition colorize_hsv_advanced
    (hsv2rgb_px : spec_float -> spec_float -> spec_float -> list spec_float)
    (h w : nat) (samples : list Z) (hue_shift saturation_boost : spec_float) :
    py (list nat * list spec_float) :=
  img_gray ← img_rgb_normalized samples;
  let img_rgb_colorized :=
    img_hsv hue_shift saturation_boost img_gray ≫=
      (fun '(hue, saturation, brightness) => hsv2rgb_px hue saturation brightness) in
  mret ([h; w; 3%nat], clip_unit img_rgb_colorized).

(** One pixel of [skimage.color.hsv2rgb], in [float64]: the hexagonal
    conversion of module [Kernels]. *)
Definition hsv2rgb_px (h s v : spec_float) : list spec_float :=
  let h6 := mul64 h (f64_of_Z 6) in
  let hi := floor h6 in
  let f := sub64 h6 (f64_of_Z hi) in
  let p := mul64 v (sub64 (f64_of_Z 1) s) in
  let q := mul64 v (sub64 (f64_of_Z 1) (mul64 f s)) in
  let t := mul64 v (sub64 (f64_of_Z 1) (mul64 (sub64 (f64_of_Z 1) f) s)) in
  match hi mod 6 with
  | 0 => [v; t; p]
  | 1 => [q; v; p]
  | 2 => [p; v; t]
  | 3 => [p; q; v]
  | 4 => [t; p; v]
  | _ => [v; p; q]
  end.




End Float32.

(** ** Validity of an input image *)

(** A non-empty [(H, W)] or [(H, W, 3)] array. *)
Definition valid_image (a : ndarray) : bool :=
  bool_decide (length (data a) = product (shape a)) &&
  match shape a with
  | [h; w] | [h; w; 3] => bool_decide (0 < h) && bool_decide (0 < w)
  | _ => false
  end.

(** An input the colorizers refuse: a zero-size array, an array without
    axes, or a three-axis array whose last axis is not of size 3. *)
Definition invalid_image (a : ndarray) : bool :=
  bool_decide (length (data a) = product (shape a)) &&
  (bool_decide (product (shape a) = 0%nat) ||
   match shape a with
   | [] => true
   | [_; _; c] => negb (c =? 3)%nat
   | _ => false
   end).

(** The error class the specification names; the program defines no such
    class. *)
Definition InvalidImageError : exn := "InvalidImageError".

(** An [(h, w, 3)] array with every sample in the unit interval. *)
Definition rgb_unit_field (h w : nat) (a : ndarray) : Prop :=
  shape a = [h; w; 3%nat] /\ wf a /\ Forall Sample.unit (data a).

(** Every sample is in [[0, 255]]: an 8-bit image, or one already scaled
    to the unit interval. *)
Definition in_byte_range (a : ndarray) : bool :=
  forallb (fun x => bool_decide (0 <= x)%Qc && bool_decide (x <= Sample.qc 255 1)%Qc)
    (data a).

Section Colorizers.
Import Sample.
Local Open Scope Qc_scope.

(** The weighting of [skimage.color.rgb2gray], the per-pixel conversion of
    [skimage.color.hsv2rgb], and the RGBA colour a [matplotlib] colormap
    gives to one sample. *)
Variable luma : Qc -> Qc -> Qc -> Qc.
Variable hsv2rgb_px : Qc -> Qc -> Qc -> Qc * Qc * Qc.
Variable cm_lookup : colormap -> Qc -> Qc * Qc * Qc * Qc.

(** The luminance of colours in the unit cube stays in the unit interval. *)
Definition luma_unit : Prop :=
  forall r g b, unit r -> unit g -> unit b -> unit (luma r g b).

(** *** scikit-image and matplotlib on arrays *)

Fixpoint gray_pixels (d : list Qc) : list Qc :=
  match d with
  | r :: g :: b :: d => luma r g b :: gray_pixels d
  | _ => []
  end.

Fixpoint rgb_pixels (d : list Qc) : list Qc :=
  match d with
  | h :: s :: v :: d => let '(r, g, b) := hsv2rgb_px h s v in r :: g :: b :: rgb_pixels d
  | _ => []
  end.

(** Both conversions refuse an array whose last axis is not of size 3. *)
Definition rgb2gray (a : ndarray) : py ndarray :=
  match last (shape a) with
  | Some 3%nat => mret (NdArray (removelast (shape a)) (gray_pixels (data a)))
  | _ => raise ValueError
  end.

Definition hsv2rgb (a : ndarray) : py ndarray :=
  match last (shape a) with
  | Some 3%nat => mret (NdArray (shape a) (rgb_pixels (data a)))
  | _ => raise ValueError
  end.

Definition rgba (c : colormap) (x : Qc) : list Qc :=
  let '(r, g, b, a) := cm_lookup c x in [r; g; b; a].

(** [colormap(X)]: one RGBA colour per sample, along a new last axis. *)
Definition cm_call (c : colormap) (a : ndarray) : cm_value :=
  match shape a, data a with
  | [], [x] => CmTuple (rgba c x)
  | _, _ => CmArray (NdArray (shape a ++ [4%nat]) (data a ≫= rgba c))
  end.

(** [colormap(X)[:, :, :3]] *)
Definition cm_rgb (v : cm_value) : py ndarray :=
  match v with
  | CmArray a => slice_axis2_to3 a
  | CmTuple _ => raise TypeError
  end.

(** *** The statements that open every colorizer *)

(** [if img_rgb.max() > 1.0: ... / 255.0 else: ...] *)
Definition img_rgb_normalized (img_rgb : ndarray) : py ndarray :=
  m ← Np.max img_rgb;
  if decide (1 < m)
  then mret (Np.map (fun x => x / qc 255 1) (astype_float32 img_rgb))
  else mret (astype_float32 img_rgb).

(** [if img_rgb_normalized.ndim == 3: rgb2gray(...) else: ....copy()] *)
Definition img_gray (normalized : ndarray) : py ndarray :=
  if decide (ndim normalized = 3%nat)
  then rgb2gray normalized
  else mret (copy normalized).

(** The intensity field: the two statements together. *)
Definition intensity (img_rgb : ndarray) : py ndarray :=
  normalized ← img_rgb_normalized img_rgb;
  img_gray normalized.

(** *** hsv_colorizer.py *)

Definition H_channel (hue_shift I : Qc) : Qc :=
  pymod (qc 6 10 - qc 45 100 * I + hue_shift) 1.

Definition S_channel (saturation_boost I : Qc) : Qc :=
  Sample.clip (qc 4 1 * I * (1 - I) * saturation_boost) 0 1.

(** The HSV image handed to [hsv2rgb]. *)
Definition hsv_image (h w : nat) (Hs Ss Vs : ndarray) : py ndarray :=
  img_hsv ← mret (zeros [h; w; 3%nat]);
  img_hsv ← set_channel img_hsv 0 Hs;
  img_hsv ← set_channel img_hsv 1 Ss;
  set_channel img_hsv 2 Vs.

Definition colorize_hsv (img_rgb : ndarray) : py ndarray :=
  normalized ← img_rgb_normalized img_rgb;
  gray ← img_gray normalized;
  '(h, w) ← unpack2 (shape gray);
  let V := gray in
  let Hs := Np.map (fun I => qc 6 10 - qc 45 100 * I) gray in
  let Ss := Np.map (fun I => qc 4 1 * I * (1 - I)) gray in
  img_hsv ← hsv_image h w Hs Ss V;
  img_rgb_colorized ← hsv2rgb img_hsv;
  mret (Np.clip img_rgb_colorized 0 1).

Definition colorize_hsv_advanced (img_rgb : ndarray)
    (hue_shift saturation_boost : Qc) : py ndarray :=
  normalized ← img_rgb_normalized img_rgb;
  gray ← img_gray normalized;
  '(h, w) ← unpack2 (shape gray);
  let V := gray in
  let Hs := Np.map (H_channel hue_shift) gray in
  let Ss := Np.map (S_channel saturation_boost) gray in
  img_hsv ← hsv_image h w Hs Ss V;
  img_rgb_colorized ← hsv2rgb img_hsv;
  mret (Np.clip img_rgb_colorized 0 1).

(** *** pseudocolor_colorizer.py *)

Definition COLORMAP_MODES : list (string * colormap) :=
  [ ("jet", cm_jet); ("hot", cm_hot); ("cool", cm_cool);
    ("viridis", cm_viridis); ("parula", cm_viridis); ("plasma", cm_plasma);
    ("inferno", cm_inferno); ("magma", cm_magma); ("spring", cm_spring);
    ("summer", cm_summer); ("autumn", cm_autumn); ("winter", cm_winter);
    ("rainbow", cm_rainbow); ("turbo", cm_turbo); ("hsv", cm_hsv);
    ("seismic", cm_seismic); ("terrain", cm_terrain) ].

Definition unknown_colormap_warning (colormap_mode : string) : string :=
  "Warning: Unknown colormap '" +:+ colormap_mode +:+ "', using 'jet' instead.".

Definition colorize_pseudocolor (img_rgb : ndarray) (colormap_mode : string)
    : py ndarray :=
  normalized ← img_rgb_normalized img_rgb;
  gray ← img_gray normalized;
  colormap_mode ←
    (if negb (dict_in (lower colormap_mode) COLORMAP_MODES)
     then _ ← print (unknown_colormap_warning colormap_mode); mret "jet"
     else mret colormap_mode);
  colormap ← dict_get COLORMAP_MODES (lower colormap_mode);
  img_colored ← cm_rgb (cm_call colormap gray);
  mret (Np.clip img_colored 0 1).

(** The field [clip(colormap(gray)[:, :, :3], 0, 1)] of an [(h, w)]
    intensity field: the colour of each sample without its alpha. *)
Definition pseudocolor_field (h w : nat) (c : colormap) (gray : ndarray) : ndarray :=
  Np.clip (NdArray [h; w; 3%nat] (data gray ≫= fun x => take 3 (rgba c x))) 0 1.

Definition default_colormap_modes : list string :=
  ["jet"; "hot"; "viridis"; "plasma"].

(** [for mode in colormap_modes: results[mode] = colorize_pseudocolor(...)] *)
Fixpoint for_modes (img_rgb : ndarray) (colormap_modes : list string)
    (results : gmap string ndarray) : py (gmap string ndarray) :=
  match colormap_modes with
  | [] => mret results
  | mode :: colormap_modes =>
      r ← colorize_pseudocolor img_rgb mode;
      for_modes img_rgb colormap_modes (<[mode := r]> results)
  end.

Definition colorize_pseudocolor_multiple (img_rgb : ndarray)
    (colormap_modes : option (list string)) : py (gmap string ndarray) :=
  let colormap_modes := default default_colormap_modes colormap_modes in
  for_modes img_rgb colormap_modes ∅.

Definition get_available_colormaps : list string := dict_keys COLORMAP_MODES.


(** * Properties *)

(** ** Arithmetic on samples *)

(** *** From canonical rationals to rationals *)

Lemma this_Q2Qc q : (this (Q2Qc q) == q)%Q.
Proof. apply Qred_correct. Qed.

Lemma this_qc n d : (this (qc n d) == n # d)%Q.
Proof. apply Qred_correct. Qed.

Lemma this_of_Z z : (this (of_Z z) == inject_Z z)%Q.
Proof. apply Qred_correct. Qed.

Lemma this_plus x y : (this (x + y) == this x + this y)%Q.
Proof. apply Qred_correct. Qed.

Lemma this_mult x y : (this (x * y) == this x * this y)%Q.
Proof. apply Qred_correct. Qed.

Lemma this_opp x : (this (- x) == - this x)%Q.
Proof. apply Qred_correct. Qed.

Lemma this_minus x y : (this (x - y) == this x - this y)%Q.
Proof. unfold Qcminus. rewrite this_plus, this_opp. reflexivity. Qed.

(** Turns a goal on [Qc] into one on [Q] that [lra] and [nra] read. *)
Ltac to_Q :=
  repeat match goal with
  | |- @eq Qc _ _ => apply Qc_is_canon
  | H : @eq Qc _ _ |- _ => apply (f_equal this) in H
  | H : ~ (_ < _)%Qc |- _ => apply Qcnot_lt_le in H
  | H : ~ (_ <= _)%Qc |- _ => apply Qcnot_le_lt in H
  end;
  unfold unit, Qcle, Qclt in *;
  repeat first
    [ rewrite this_plus in * | rewrite this_minus in * | rewrite this_mult in *
    | rewrite this_opp in * | rewrite this_qc in * | rewrite this_of_Z in *
    | rewrite this_Q2Qc in * ];
  change (this 0) with 0%Q in *; change (this 1) with 1%Q in *.

Lemma div_1 x : x / 1 = x.
Proof. unfold Qcdiv. change (/ 1) with 1. ring. Qed.

(** *** Clipping *)

Lemma clip_unit x : unit (clip x 0 1).
Proof.
  unfold clip, minimum, maximum.
  repeat case_decide; to_Q; lra.
Qed.

Lemma clip_id x : unit x -> clip x 0 1 = x.
Proof.
  intros [H0 H1]. unfold clip, minimum, maximum.
  repeat case_decide; to_Q; lra.
Qed.

(** *** The remainder modulo one *)

Lemma floor_spec (x : Qc) (z : Z) :
  (inject_Z z <= this x)%Q -> (this x < inject_Z z + 1)%Q -> floor x = z.
Proof.
  intros Hl Hu. unfold floor.
  pose proof (Qfloor_le x) as Hfl. pose proof (Qlt_floor x) as Hfu.
  assert (Qfloor x < z + 1)%Z as H1.
  { rewrite Zlt_Qlt, inject_Z_plus. eapply Qle_lt_trans; eauto. }
  assert (z < Qfloor x + 1)%Z as H2.
  { rewrite Zlt_Qlt. eapply Qle_lt_trans; eauto. }
  lia.
Qed.

Lemma pymod_1 x : pymod x 1 = x - of_Z (floor x).
Proof. unfold pymod. rewrite div_1. ring. Qed.

Lemma pymod_1_id x : 0 <= x -> x < 1 -> pymod x 1 = x.
Proof.
  intros H0 H1. rewrite pymod_1.
  rewrite (floor_spec x 0); [|to_Q; change (inject_Z 0) with 0%Q; lra..].
  change (of_Z 0) with 0. ring.
Qed.


(** *** The two curves of the HSV rule on the unit interval *)

Lemma hue_base_range x :
  unit x -> 0 <= qc 6 10 - qc 45 100 * x /\ qc 6 10 - qc 45 100 * x < 1.
Proof. intros [H0 H1]. split; to_Q; lra. Qed.

Lemma parabola_unit x : unit x -> unit (qc 4 1 * x * (1 - x)).
Proof.
  intros [H0 H1]. split; to_Q.
  - nra.
  - assert (0 <= (1 - 2 * this x) * (1 - 2 * this x))%Q
      by (destruct (Qlt_le_dec (1 - 2 * this x) 0); nra).
    lra.
Qed.

Lemma kernel_luma_unit r g b :
  unit r -> unit g -> unit b -> unit (Kernels.luma r g b).
Proof. intros [? ?] [? ?] [? ?]. unfold Kernels.luma. split; to_Q; lra. Qed.

(** ** Python calls *)

Lemma bind_ok {A B} (f : A -> py B) (a : A) : (([], Ok a) ≫= f) = f a.
Proof. unfold mbind, py_bind. by destruct (f a). Qed.

Lemma bind_ret {A B} (f : A -> py B) (a : A) : (mret a ≫= f) = f a.
Proof. apply bind_ok. Qed.

Lemma bind_raise {A B} (f : A -> py B) out e : ((out, Raise e) ≫= f) = (out, Raise e).
Proof. reflexivity. Qed.


(** ** Arrays *)

Lemma maximum_ge_l x y : x <= maximum x y.
Proof. unfold maximum. case_decide; to_Q; lra. Qed.

Lemma maximum_ge_r x y : y <= maximum x y.
Proof. unfold maximum. case_decide; to_Q; lra. Qed.

Lemma maximum_cases x y : maximum x y = x \/ maximum x y = y.
Proof. unfold maximum. case_decide; auto. Qed.

Lemma foldl_maximum_spec xs x :
  let m := foldl maximum x xs in
  m ∈ x :: xs /\ Forall (fun y => y <= m) (x :: xs).
Proof.
  revert x. induction xs as [|y xs IH]; intros x; simpl.
  - split; [by apply elem_of_cons; left|]. constructor; [|constructor]. apply Qcle_refl.
  - destruct (IH (maximum x y)) as [Hin Hall]. split.
    + rewrite !elem_of_cons. apply elem_of_cons in Hin as [->|Hin]; [|auto].
      destruct (maximum_cases x y) as [-> | ->]; auto.
    + inversion Hall as [|? ? Hm Hrest]; subst.
      pose proof (maximum_ge_l x y) as Hl. pose proof (maximum_ge_r x y) as Hr.
      repeat constructor; [apply (Qcle_trans _ _ _ Hl Hm)|apply (Qcle_trans _ _ _ Hr Hm)|done].
Qed.

(** The maximum of a non-empty array is one of its samples and bounds
    them all. *)
Lemma max_spec (a : ndarray) :
  data a <> [] ->
  exists m, Np.max a = ([], Ok m) /\ m ∈ data a /\ Forall (fun y => y <= m) (data a).
Proof.
  unfold Np.max. destruct (data a) as [|x xs]; [done|]. intros _.
  exists (foldl maximum x xs). split; [done|]. apply foldl_maximum_spec.
Qed.

Lemma max_empty (a : ndarray) : data a = [] -> Np.max a = ([], Raise ValueError).
Proof. unfold Np.max. by intros ->. Qed.

Lemma product_pos_nonempty (a : ndarray) :
  wf a -> (0 < product (shape a))%nat -> data a <> [].
Proof. unfold wf. destruct (data a); simpl; [lia|done]. Qed.

Lemma np_clip_unit (a : ndarray) : Forall unit (data (Np.clip a 0 1)).
Proof. simpl. apply Forall_fmap, Forall_true. intros x. apply clip_unit. Qed.

Lemma np_clip_shape (a : ndarray) lo hi : shape (Np.clip a lo hi) = shape a.
Proof. reflexivity. Qed.

Lemma np_clip_length (a : ndarray) lo hi : length (data (Np.clip a lo hi)) = length (data a).
Proof. simpl. apply length_fmap. Qed.

(** *** Writing one channel *)

Lemma store_channel_length n c p vals d :
  length (store_channel n c p vals d) = length d.
Proof.
  revert p d. induction vals as [|v vals IH]; intros p d; simpl; [done|].
  by rewrite IH, length_insert.
Qed.

(** Pixels before the first one written are left alone. *)
Lemma store_channel_skip n c p vals blk d :
  length blk = n ->
  store_channel n c (S p) vals (blk ++ d) = blk ++ store_channel n c p vals d.
Proof.
  intros Hn. revert p d. induction vals as [|v vals IH]; intros p d; simpl; [done|].
  rewrite <- IH. f_equal.
  rewrite insert_app_r_alt by lia. do 2 f_equal. lia.
Qed.

Lemma store_channel_cons3 c v vals x0 x1 x2 d :
  (c < 3)%nat ->
  store_channel 3 c 0 (v :: vals) (x0 :: x1 :: x2 :: d) =
  <[c := v]> [x0; x1; x2] ++ store_channel 3 c 0 vals d.
Proof.
  intros Hc. simpl store_channel at 1.
  destruct c as [|[|[|c]]]; [| | |lia]; simpl;
    apply (store_channel_skip 3 _ 0 vals [_; _; _]); done.
Qed.

(** Three channels written into a zero image give the pixels one after
    the other. *)
Lemma store_three_channels (f g k : Qc -> Qc) (d : list Qc) :
  store_channel 3 2 0 (k <$> d)
    (store_channel 3 1 0 (g <$> d)
       (store_channel 3 0 0 (f <$> d) (replicate (length d * 3) 0))) =
  d ≫= (fun I => [f I; g I; k I]).
Proof.
  induction d as [|I d IH]; [done|].
  rewrite !fmap_cons. simpl length. simpl replicate.
  rewrite store_channel_cons3 by lia. cbn -[store_channel].
  rewrite store_channel_cons3 by lia. cbn -[store_channel].
  rewrite store_channel_cons3 by lia. cbn -[store_channel].
  by rewrite IH.
Qed.


(** ** The colorizers *)

(** *** Shapes of valid and invalid inputs *)

Lemma valid_image_inv (a : ndarray) :
  valid_image a = true ->
  wf a /\ exists h w, (0 < h)%nat /\ (0 < w)%nat /\
                      (shape a = [h; w] \/ shape a = [h; w; 3%nat]).
Proof.
  unfold valid_image, wf. intros [Hwf Hsh]%andb_true_iff.
  apply bool_decide_eq_true in Hwf. split; [done|].
  destruct (shape a) as [|h [|w [|[|[|[|[|c]]]] [|? ?]]]]; try done;
    apply andb_true_iff in Hsh as [?%bool_decide_eq_true ?%bool_decide_eq_true];
    exists h, w; auto.
Qed.

Lemma valid_image_nonempty (a : ndarray) : valid_image a = true -> data a <> [].
Proof.
  intros (Hwf & h & w & Hh & Hw & Hsh)%valid_image_inv.
  apply product_pos_nonempty; [done|].
  destruct Hsh as [-> | ->]; simpl; nia.
Qed.

(** *** The opening statements *)

Lemma gray_pixels_length k d : length d = (k * 3)%nat -> length (gray_pixels d) = k.
Proof.
  revert d. induction k as [|k IH]; intros [|r [|g [|b d]]]; simpl; try lia.
  intros Hd. rewrite IH; lia.
Qed.

Lemma rgb_pixels_length k d : length d = (k * 3)%nat -> length (rgb_pixels d) = (k * 3)%nat.
Proof.
  revert d. induction k as [|k IH]; intros [|h [|s [|v d]]]; simpl; try lia.
  intros Hd. destruct (hsv2rgb_px h s v) as [[r g] b]. simpl. rewrite IH; lia.
Qed.

Lemma gray_pixels_unit d : luma_unit -> Forall unit d -> Forall unit (gray_pixels d).
Proof.
  intros Hl. remember (length d) as n eqn:Hn. revert d Hn.
  induction n as [n IH] using lt_wf_ind. intros [|r [|g [|b d]]] Hn Hd; simpl; try done.
  inversion Hd as [|? ? Hr Hd1]; subst. inversion Hd1 as [|? ? Hg Hd2]; subst.
  inversion Hd2 as [|? ? Hb Hd3]; subst.
  constructor; [by apply Hl|]. eapply IH; [|done..]. simpl. lia.
Qed.

Lemma normalized_nonempty (a : ndarray) :
  data a <> [] ->
  exists m n, Np.max a = ([], Ok m) /\ m ∈ data a /\ Forall (fun y => y <= m) (data a) /\
    img_rgb_normalized a = ([], Ok n) /\
    n = (if decide (1 < m) then Np.map (fun x => x / qc 255 1) a else a).
Proof.
  intros Hne. destruct (max_spec a Hne) as (m & Hmax & Hin & Hall).
  exists m. eexists. repeat split; [done..|].
  unfold img_rgb_normalized. rewrite Hmax, bind_ok. by case_decide.
Qed.

Lemma div_255_unit x : 0 <= x -> x <= qc 255 1 -> unit (x / qc 255 1).
Proof.
  intros H0 H1. unfold Qcdiv.
  assert (/ qc 255 1 = qc 1 255) as -> by (apply Qc_is_canon; reflexivity).
  split; to_Q; lra.
Qed.

Lemma normalized_unit (a n : ndarray) :
  in_byte_range a = true -> img_rgb_normalized a = ([], Ok n) -> Forall unit (data n).
Proof.
  intros Hr Hn.
  assert (Forall (fun x => 0 <= x /\ x <= qc 255 1) (data a)) as Hall.
  { unfold in_byte_range in Hr. rewrite forallb_forall in Hr.
    apply Forall_forall. intros x Hx%list_elem_of_In%Hr.
    apply andb_true_iff in Hx as [?%bool_decide_eq_true ?%bool_decide_eq_true]. done. }
  destruct (decide (data a = [])) as [He|Hne].
  { unfold img_rgb_normalized in Hn. by rewrite (max_empty a He) in Hn. }
  destruct (normalized_nonempty a Hne) as (m & n' & _ & _ & Hle & Hn' & ->).
  rewrite Hn' in Hn. injection Hn as <-. case_decide as Hm.
  - simpl. apply Forall_fmap. eapply Forall_impl; [exact Hall|].
    intros x [? ?]. by apply div_255_unit.
  - apply Forall_forall. intros x Hx. rewrite Forall_forall in Hall, Hle.
    specialize (Hall x Hx). specialize (Hle x Hx).
    destruct Hall as [H0 _]. split; [done|]. to_Q. lra.
Qed.

Lemma img_gray_valid (n : ndarray) h w :
  wf n -> shape n = [h; w] \/ shape n = [h; w; 3%nat] ->
  exists g, img_gray n = ([], Ok g) /\ shape g = [h; w] /\
            length (data g) = (h * w)%nat /\
            (luma_unit -> Forall unit (data n) -> Forall unit (data g)).
Proof.
  unfold wf, img_gray, ndim. intros Hwf [Hsh|Hsh]; rewrite Hsh in *; simpl in *.
  - exists n. repeat split; [done| |done]. unfold copy. lia.
  - unfold rgb2gray. rewrite Hsh. simpl.
    eexists. repeat split; simpl.
    + apply gray_pixels_length. lia.
    + apply gray_pixels_unit.
Qed.

Lemma intensity_valid (img : ndarray) :
  valid_image img = true ->
  exists h w g, (0 < h)%nat /\ (0 < w)%nat /\
    (shape img = [h; w] \/ shape img = [h; w; 3%nat]) /\
    intensity img = ([], Ok g) /\ shape g = [h; w] /\
    length (data g) = (h * w)%nat /\
    (luma_unit -> in_byte_range img = true -> Forall unit (data g)).
Proof.
  intros Hv. pose proof (valid_image_nonempty img Hv) as Hne.
  destruct (valid_image_inv img Hv) as (Hwf & h & w & Hh & Hw & Hsh).
  destruct (normalized_nonempty img Hne) as (m & n & _ & _ & _ & Hn & Hnd).
  assert (shape n = shape img /\ wf n) as [Hshn Hwfn].
  { subst n. case_decide; [|done]. unfold wf in *. simpl. by rewrite length_fmap. }
  destruct (img_gray_valid n h w Hwfn) as (g & Hg & Hgs & Hgl & Hgu);
    [by rewrite Hshn|].
  exists h, w, g. repeat split; try done.
  - unfold intensity. by rewrite Hn, bind_ok.
  - intros Hl Hr. apply Hgu; [done|]. by apply (normalized_unit img).
Qed.

(** *** The HSV image and its conversion *)

Lemma set_channel_spec (a src : ndarray) c h w :
  shape a = [h; w; 3%nat] -> (c < 3)%nat -> shape src = [h; w] ->
  set_channel a c src =
  ([], Ok (NdArray [h; w; 3%nat] (store_channel 3 c 0 (data src) (data a)))).
Proof.
  intros Ha Hc Hs. unfold set_channel. rewrite Ha.
  by rewrite !decide_True by done.
Qed.

Lemma hsv_image_spec h w (f g : Qc -> Qc) (gray : ndarray) :
  shape gray = [h; w] -> length (data gray) = (h * w)%nat ->
  hsv_image h w (Np.map f gray) (Np.map g gray) gray =
  ([], Ok (NdArray [h; w; 3%nat] (data gray ≫= fun I => [f I; g I; I]))).
Proof.
  intros Hsh Hlen. unfold hsv_image. rewrite bind_ret.
  rewrite (set_channel_spec _ _ 0 h w), bind_ok by (done || lia).
  rewrite (set_channel_spec _ _ 1 h w), bind_ok by (done || lia).
  rewrite (set_channel_spec _ _ 2 h w) by (done || lia).
  do 3 f_equal. simpl.
  replace (h * (w * 3))%nat with (length (data gray) * 3)%nat by lia.
  pose proof (store_three_channels f g id (data gray)) as Hst.
  by rewrite list_fmap_id in Hst.
Qed.

Lemma triples_length {A} (f : A -> list Qc) (d : list A) k :
  (forall x, length (f x) = k) -> length (d ≫= f) = (length d * k)%nat.
Proof.
  intros Hf. induction d as [|x d IH]; [done|].
  rewrite bind_cons, length_app, Hf, IH. simpl. lia.
Qed.

Lemma hsv2rgb_spec (a : ndarray) h w :
  shape a = [h; w; 3%nat] ->
  hsv2rgb a = ([], Ok (NdArray [h; w; 3%nat] (rgb_pixels (data a)))).
Proof. intros Hsh. unfold hsv2rgb. by rewrite Hsh. Qed.

(** The output of the HSV colorizer on an intensity field, for the hue and
    saturation curves [f] and [g]. *)
Lemma hsv_pipeline h w (f g : Qc -> Qc) (gray : ndarray) :
  shape gray = [h; w] -> length (data gray) = (h * w)%nat ->
  (img_hsv ← hsv_image h w (Np.map f gray) (Np.map g gray) gray;
   img_rgb_colorized ← hsv2rgb img_hsv;
   mret (Np.clip img_rgb_colorized 0 1)) =
  ([], Ok (Np.clip (NdArray [h; w; 3%nat]
                      (rgb_pixels (data gray ≫= fun I => [f I; g I; I]))) 0 1)).
Proof.
  intros Hsh Hlen. rewrite (hsv_image_spec h w f g gray Hsh Hlen), bind_ok.
  rewrite (hsv2rgb_spec _ h w) by done. by rewrite bind_ok.
Qed.

Lemma hsv_output_field h w (d : list Qc) :
  length d = (h * w * 3)%nat ->
  rgb_unit_field h w (Np.clip (NdArray [h; w; 3%nat] (rgb_pixels d)) 0 1).
Proof.
  intros Hd. split; [done|]. split; [|apply np_clip_unit].
  unfold wf. rewrite np_clip_length. simpl.
  rewrite (rgb_pixels_length (h * w)) by done. lia.
Qed.

Lemma colorize_hsv_advanced_valid (img gray : ndarray) h w hue_shift saturation_boost :
  intensity img = ([], Ok gray) -> shape gray = [h; w] ->
  length (data gray) = (h * w)%nat ->
  colorize_hsv_advanced img hue_shift saturation_boost =
  ([], Ok (Np.clip (NdArray [h; w; 3%nat]
      (rgb_pixels (data gray ≫= fun I =>
         [H_channel hue_shift I; S_channel saturation_boost I; I]))) 0 1)).
Proof.
  intros Hi Hsh Hlen. unfold colorize_hsv_advanced.
  unfold intensity in Hi.
  destruct (img_rgb_normalized img) as [out [n|e]] eqn:Hn; [|done].
  destruct out as [|? ?].
  2:{ unfold mbind, py_bind in Hi. destruct (img_gray n). done. }
  rewrite bind_ok in Hi |- *. rewrite Hi, bind_ok, Hsh. simpl unpack2.
  rewrite bind_ret. cbv beta iota.
  apply (hsv_pipeline h w (H_channel hue_shift) (S_channel saturation_boost)); done.
Qed.

Lemma colorize_hsv_valid (img gray : ndarray) h w :
  intensity img = ([], Ok gray) -> shape gray = [h; w] ->
  length (data gray) = (h * w)%nat ->
  colorize_hsv img =
  ([], Ok (Np.clip (NdArray [h; w; 3%nat]
      (rgb_pixels (data gray ≫= fun I =>
         [qc 6 10 - qc 45 100 * I; qc 4 1 * I * (1 - I); I]))) 0 1)).
Proof.
  intros Hi Hsh Hlen. unfold colorize_hsv.
  unfold intensity in Hi.
  destruct (img_rgb_normalized img) as [out [n|e]] eqn:Hn; [|done].
  destruct out as [|? ?].
  2:{ unfold mbind, py_bind in Hi. destruct (img_gray n). done. }
  rewrite bind_ok in Hi |- *. rewrite Hi, bind_ok, Hsh. simpl unpack2.
  rewrite bind_ret. cbv beta iota.
  apply (hsv_pipeline h w (fun I => qc 6 10 - qc 45 100 * I)
           (fun I => qc 4 1 * I * (1 - I))); done.
Qed.

(** *** The colormap and its registry *)

Lemma rgba_length c x : length (rgba c x) = 4%nat.
Proof. unfold rgba. by destruct (cm_lookup c x) as [[[? ?] ?] ?]. Qed.

Lemma take_each_rgba c (d : list Qc) :
  take_each 4 3 (length d) (d ≫= rgba c) = d ≫= fun x => take 3 (rgba c x).
Proof.
  induction d as [|x d IH]; [done|].
  rewrite !bind_cons. simpl length. simpl take_each.
  pose proof (rgba_length c x) as Hl.
  rewrite take_app_le, drop_app_length' by (done || lia). by rewrite IH.
Qed.

Lemma cm_rgb_call c (gray : ndarray) h w :
  shape gray = [h; w] -> length (data gray) = (h * w)%nat ->
  cm_rgb (cm_call c gray) =
  ([], Ok (NdArray [h; w; 3%nat] (data gray ≫= fun x => take 3 (rgba c x)))).
Proof.
  intros Hsh Hlen. unfold cm_call. rewrite Hsh. simpl.
  unfold slice_axis2_to3, mret, py_ret. simpl. do 3 f_equal.
  rewrite <- Hlen. apply take_each_rgba.
Qed.

Lemma dict_get_in {V} (d : list (string * V)) k :
  dict_in k d = true -> exists v, dict_get d k = ([], Ok v) /\ (k, v) ∈ d.
Proof.
  unfold dict_in, dict_keys. intros Hin%bool_decide_eq_true.
  induction d as [|[k' v] d IH]; simpl in *.
  - by apply elem_of_nil in Hin.
  - case_decide as Hk.
    + subst. exists v. split; [done|]. apply elem_of_cons. by left.
    + apply elem_of_cons in Hin as [?|Hin]; [congruence|].
      destruct (IH Hin) as (v' & Hg & Hv'). exists v'. split; [done|].
      apply elem_of_cons. by right.
Qed.

Lemma colorize_pseudocolor_from_intensity (img gray : ndarray) name :
  intensity img = ([], Ok gray) ->
  colorize_pseudocolor img name =
  (colormap_mode ←
     (if negb (dict_in (lower name) COLORMAP_MODES)
      then _ ← print (unknown_colormap_warning name); mret "jet"
      else mret name);
   colormap ← dict_get COLORMAP_MODES (lower colormap_mode);
   img_colored ← cm_rgb (cm_call colormap gray);
   mret (Np.clip img_colored 0 1)).
Proof.
  intros Hi. unfold colorize_pseudocolor. unfold intensity in Hi.
  destruct (img_rgb_normalized img) as [out [n|e]] eqn:Hn; [|done].
  destruct out as [|? ?].
  2:{ unfold mbind, py_bind in Hi. destruct (img_gray n). done. }
  rewrite bind_ok in Hi |- *. by rewrite Hi, bind_ok.
Qed.

(** A registered name: the colormap it is bound to is applied, and nothing
    is printed. *)
Lemma colorize_pseudocolor_known (img gray : ndarray) h w name :
  intensity img = ([], Ok gray) -> shape gray = [h; w] ->
  length (data gray) = (h * w)%nat ->
  dict_in (lower name) COLORMAP_MODES = true ->
  exists c, dict_get COLORMAP_MODES (lower name) = ([], Ok c) /\
            colorize_pseudocolor img name = ([], Ok (pseudocolor_field h w c gray)).
Proof.
  intros Hi Hsh Hlen Hin.
  destruct (dict_get_in _ _ Hin) as (c & Hc & _). exists c. split; [done|].
  rewrite (colorize_pseudocolor_from_intensity img gray name Hi).
  rewrite Hin. simpl negb. cbv iota. rewrite bind_ret, Hc, bind_ok.
  by rewrite (cm_rgb_call c gray h w Hsh Hlen), bind_ok.
Qed.

(** An unregistered name: the warning is printed and the jet colormap is
    applied. *)
Lemma colorize_pseudocolor_unknown (img gray : ndarray) h w name :
  intensity img = ([], Ok gray) -> shape gray = [h; w] ->
  length (data gray) = (h * w)%nat ->
  dict_in (lower name) COLORMAP_MODES = false ->
  colorize_pseudocolor img name =
  ([unknown_colormap_warning name], Ok (pseudocolor_field h w cm_jet gray)).
Proof.
  intros Hi Hsh Hlen Hin.
  rewrite (colorize_pseudocolor_from_intensity img gray name Hi).
  rewrite Hin. simpl negb. cbv iota.
  unfold print.
  assert (forall B (k : string -> py B) out r, k "jet" = (out, r) ->
     ((([unknown_colormap_warning name], Ok ()) ≫= fun _ => mret "jet") ≫= k)
     = (unknown_colormap_warning name :: out, r)) as Hstep.
  { intros B k out r Hk. unfold mbind, py_bind, mret, py_ret. simpl. by rewrite Hk. }
  apply Hstep. change (dict_get COLORMAP_MODES (lower "jet")) with (mret (M:=py) cm_jet).
  rewrite bind_ret. by rewrite (cm_rgb_call cm_jet gray h w Hsh Hlen), bind_ok.
Qed.

(** On a valid image [colorize_pseudocolor] returns, whatever the name. *)
Lemma colorize_pseudocolor_returns (img gray : ndarray) h w name :
  intensity img = ([], Ok gray) -> shape gray = [h; w] ->
  length (data gray) = (h * w)%nat ->
  exists printed c,
    colorize_pseudocolor img name = (printed, Ok (pseudocolor_field h w c gray)).
Proof.
  intros Hi Hsh Hlen.
  destruct (dict_in (lower name) COLORMAP_MODES) eqn:Hin.
  - destruct (colorize_pseudocolor_known img gray h w _ Hi Hsh Hlen Hin) as (c & _ & Hp).
    by exists [], c.
  - eexists _, cm_jet. exact (colorize_pseudocolor_unknown img gray h w _ Hi Hsh Hlen Hin).
Qed.

Lemma pseudocolor_output_field h w c (gray : ndarray) :
  length (data gray) = (h * w)%nat ->
  rgb_unit_field h w (pseudocolor_field h w c gray).
Proof.
  intros Hlen. unfold pseudocolor_field. split; [done|]. split; [|apply np_clip_unit].
  unfold wf. rewrite np_clip_length. simpl.
  rewrite (triples_length _ _ 3), Hlen; [lia|].
  intros x. rewrite length_take, rgba_length. done.
Qed.

(** *** Equal curves give equal fields *)

Lemma bind_ext_Forall {A B} (P : A -> Prop) (f g : A -> list B) (d : list A) :
  Forall P d -> (forall x, P x -> f x = g x) -> d ≫= f = d ≫= g.
Proof.
  intros Hd Hfg. induction Hd as [|x d Hx Hd IH]; [done|].
  by rewrite !bind_cons, IH, (Hfg x Hx).
Qed.

Lemma H_channel_base I : unit I -> H_channel 0 I = qc 6 10 - qc 45 100 * I.
Proof.
  intros HI. unfold H_channel.
  replace (qc 6 10 - qc 45 100 * I + 0) with (qc 6 10 - qc 45 100 * I) by ring.
  destruct (hue_base_range I HI). by apply pymod_1_id.
Qed.

Lemma S_channel_base I : unit I -> S_channel 1 I = qc 4 1 * I * (1 - I).
Proof.
  intros HI. unfold S_channel.
  replace (qc 4 1 * I * (1 - I) * 1) with (qc 4 1 * I * (1 - I)) by ring.
  by apply clip_id, parabola_unit.
Qed.

(** ** The hue in [float32] *)







(** * The claims *)

(** C1. For every valid image, every hue shift and every non-negative
    saturation boost, [colorize_hsv_advanced] hands to the HSV-to-RGB
    conversion the field that holds, for each sample [I] of the intensity
    field in order, the triple [((0.6 - 0.45*I + hue_shift) mod 1.0,
    clip(4*I*(1-I)*saturation_boost, 0, 1), I)], and returns the clipped
    conversion of that field.  At [I = 0] the unshifted hue is [0.6] and
    the saturation [0]; at [I = 1] the unshifted hue is [0.15] and the
    saturation [0]; at [I = 0.5] the saturation is [1] for a boost of [1]. *)
Theorem hsv_advanced_triples (img : ndarray) (hue_shift saturation_boost : Qc) :
  valid_image img = true -> 0 <= saturation_boost ->
  (exists h w gray,
     intensity img = ([], Ok gray) /\ shape gray = [h; w] /\
     length (data gray) = (h * w)%nat /\
     colorize_hsv_advanced img hue_shift saturation_boost =
     (img_rgb_colorized ←
        hsv2rgb (NdArray [h; w; 3%nat] (data gray ≫= fun I =>
          [ pymod (qc 6 10 - qc 45 100 * I + hue_shift) 1;
            Sample.clip (qc 4 1 * I * (1 - I) * saturation_boost) 0 1;
            I ]));
      mret (Np.clip img_rgb_colorized 0 1))) /\
  pymod (qc 6 10 - qc 45 100 * 0 + 0) 1 = qc 6 10 /\
  Sample.clip (qc 4 1 * 0 * (1 - 0) * saturation_boost) 0 1 = 0 /\
  pymod (qc 6 10 - qc 45 100 * 1 + 0) 1 = qc 15 100 /\
  Sample.clip (qc 4 1 * 1 * (1 - 1) * saturation_boost) 0 1 = 0 /\
  Sample.clip (qc 4 1 * qc 1 2 * (1 - qc 1 2) * 1) 0 1 = 1.
Proof.
  intros Hv Hboost. split.
  - destruct (intensity_valid img Hv) as (h & w & gray & _ & _ & _ & Hi & Hsh & Hlen & _).
    exists h, w, gray. repeat split; try done.
    rewrite (colorize_hsv_advanced_valid img gray h w _ _ Hi Hsh Hlen).
    rewrite (hsv2rgb_spec _ h w) by done. by rewrite bind_ok.
  - assert (forall x, qc 4 1 * 0 * (1 - 0) * x = 0) as H0 by (intros; ring).
    assert (forall x, qc 4 1 * 1 * (1 - 1) * x = 0) as H1 by (intros; ring).
    rewrite H0, H1.
    repeat split; apply Qc_is_canon; reflexivity.
Qed.

(** C2. For every valid image, whatever the range of its samples, the
    outputs of [colorize_hsv], [colorize_hsv_advanced] and
    [colorize_pseudocolor] are [(H, W, 3)] fields of the height and width of
    the input, and every sample of them lies in [[0, 1]]. *)
Theorem outputs_are_unit_rgb (img : ndarray) (hue_shift saturation_boost : Qc)
    (colormap_mode : string) :
  valid_image img = true ->
  exists h w out_hsv out_advanced out_pseudocolor printed,
    (shape img = [h; w] \/ shape img = [h; w; 3%nat]) /\
    colorize_hsv img = ([], Ok out_hsv) /\
    colorize_hsv_advanced img hue_shift saturation_boost = ([], Ok out_advanced) /\
    colorize_pseudocolor img colormap_mode = (printed, Ok out_pseudocolor) /\
    rgb_unit_field h w out_hsv /\
    rgb_unit_field h w out_advanced /\
    rgb_unit_field h w out_pseudocolor.
Proof.
  intros Hv.
  destruct (intensity_valid img Hv) as (h & w & gray & _ & _ & Hs & Hi & Hsh & Hlen & _).
  assert (forall f g : Qc -> Qc,
    length (data gray ≫= fun I => [f I; g I; I]) = (h * w * 3)%nat) as Hl3.
  { intros f g. by rewrite (triples_length _ _ 3), Hlen. }
  destruct (colorize_pseudocolor_returns img gray h w colormap_mode Hi Hsh Hlen)
    as (printed & c & Hp).
  do 6 eexists. split; [exact Hs|].
  split; [exact (colorize_hsv_valid img gray h w Hi Hsh Hlen)|].
  split; [exact (colorize_hsv_advanced_valid img gray h w _ _ Hi Hsh Hlen)|].
  split; [exact Hp|].
  auto using hsv_output_field, pseudocolor_output_field.
Qed.

(** C3. The normalization step that opens each colorizer: on a non-empty
    field with maximum sample [m], it returns the field unchanged when
    [m <= 1.0], and every sample divided by 255 when some sample exceeds
    1.0. *)
Theorem normalization_contract (img : ndarray) :
  data img <> [] ->
  exists m,
    Np.max img = ([], Ok m) /\ m ∈ data img /\ Forall (fun x => x <= m) (data img) /\
    (m <= 1 -> img_rgb_normalized img = ([], Ok img)) /\
    (Exists (fun x => 1 < x) (data img) ->
     img_rgb_normalized img =
     ([], Ok (NdArray (shape img) ((fun x => x / qc 255 1) <$> data img)))).
Proof.
  intros Hne.
  destruct (normalized_nonempty img Hne) as (m & n & Hmax & Hin & Hall & Hn & ->).
  exists m. repeat split; try done.
  - intros Hm. rewrite Hn. rewrite decide_False; [done|]. by apply Qcle_not_lt.
  - intros (x & Hx & H1)%Exists_exists. rewrite Hn. rewrite decide_True; [done|].
    rewrite Forall_forall in Hall. specialize (Hall x Hx).
    eapply Qclt_le_trans; done.
Qed.

(** C4, as amended.  For every input that is empty (a zero-size array),
    has no axes, or has three axes with a channel count other than 3 (in
    particular other than 1 and 3), each colorizer raises an exception,
    which reaches the caller: [ValueError], except that
    [colorize_pseudocolor] raises [TypeError] on an array without axes.
    The batch variant raises the same exception as soon as it has a first
    name to map. *)
Theorem invalid_image_raises (img : ndarray) (hue_shift saturation_boost : Qc)
    (colormap_mode : string) (colormap_modes : list string) :
  invalid_image img = true ->
  raises (colorize_hsv img) ValueError /\
  raises (colorize_hsv_advanced img hue_shift saturation_boost) ValueError /\
  raises (colorize_pseudocolor img colormap_mode)
    (if decide (shape img = []) then TypeError else ValueError) /\
  raises (colorize_pseudocolor_multiple img (Some (colormap_mode :: colormap_modes)))
    (if decide (shape img = []) then TypeError else ValueError).
Proof.
  intros Hinv.
  cut (raises (colorize_hsv img) ValueError /\
       raises (colorize_hsv_advanced img hue_shift saturation_boost) ValueError /\
       raises (colorize_pseudocolor img colormap_mode)
         (if decide (shape img = []) then TypeError else ValueError)).
  { intros (H1 & H2 & H3). repeat split; try done.
    destruct H3 as [out H3]. exists out.
    unfold colorize_pseudocolor_multiple. simpl. by rewrite H3. }
  revert Hinv.
  unfold invalid_image. intros [Hwf Hbad]%andb_true_iff.
  apply bool_decide_eq_true in Hwf.
  destruct (decide (data img = [])) as [He|Hne].
  { (* the maximum of a zero-size array *)
    assert (shape img <> []) as Hsh.
    { intros Hs. rewrite He, Hs in Hwf. done. }
    rewrite decide_False by done.
    unfold colorize_hsv, colorize_hsv_advanced, colorize_pseudocolor, img_rgb_normalized.
    rewrite (max_empty img He). repeat split; by exists []. }
  destruct (normalized_nonempty img Hne) as (m & n & _ & _ & _ & Hn & Hnd).
  assert (shape n = shape img) as Hshn by (subst n; by case_decide).
  assert (data n <> []) as Hnne.
  { subst n. case_decide; [|done]. simpl. by destruct (data img). }
  assert (product (shape img) <> 0%nat) as Hprod.
  { rewrite <- Hwf. by destruct (data img). }
  apply orb_true_iff in Hbad as [Hz%bool_decide_eq_true|Hbad]; [done|].
  unfold colorize_hsv, colorize_hsv_advanced, colorize_pseudocolor.
  rewrite Hn, !bind_ok. unfold img_gray, ndim. rewrite Hshn.
  destruct (shape img) as [|h [|w [|c [|? ?]]]] eqn:Hsh; try done.
  - (* no axes: the shape does not unpack, the colour tuple is not sliced *)
    rewrite decide_False by done. rewrite !bind_ret. unfold copy.
    rewrite Hshn. simpl unpack2.
    repeat split; [by exists []..|].
    rewrite decide_True by done.
    unfold cm_call. rewrite Hshn.
    assert (exists x, data n = [x]) as [x Hx].
    { assert (length (data n) = 1%nat) as Hl.
      { subst n. case_decide; simpl; rewrite ?length_fmap; by rewrite Hwf. }
      destruct (data n) as [|x [|? ?]]; try done. by exists x. }
    rewrite Hx. simpl cm_rgb.
    match goal with |- raises (?m ≫= _) _ => destruct m as [out [mode|e]] eqn:Hmode end.
    2:{ by destruct (dict_in _ _) in Hmode. }
    assert (exists c, dict_get COLORMAP_MODES (lower mode) = ([], Ok c)) as [c Hc].
    { destruct (dict_in (lower colormap_mode) COLORMAP_MODES) eqn:Hin; simpl in Hmode.
      - injection Hmode as <- <-. destruct (dict_get_in _ _ Hin) as (c & ? & _). by exists c.
      - injection Hmode as <- <-. by exists cm_jet. }
    exists out. unfold mbind, py_bind. rewrite Hc. simpl. by rewrite app_nil_r.
  - (* three axes, the last not of size 3: the grayscale reduction *)
    rewrite decide_True by done. rewrite decide_False by done.
    unfold rgb2gray. rewrite Hshn. simpl last.
    assert (c <> 3%nat) as Hc by (by apply Nat.eqb_neq, negb_true_iff).
    destruct c as [|[|[|[|c]]]]; try done; repeat split; by exists [].
Qed.

(** C5. For every valid image and every colormap name whose lower-case
    form is not in the registry, [colorize_pseudocolor] raises nothing: it
    prints the warning and returns exactly what it returns on the same
    image for the name ["jet"]. *)
Theorem unknown_colormap_falls_back (img : ndarray) (colormap_mode : string) :
  valid_image img = true ->
  dict_in (lower colormap_mode) COLORMAP_MODES = false ->
  exists out,
    colorize_pseudocolor img "jet" = ([], Ok out) /\
    colorize_pseudocolor img colormap_mode =
    (["Warning: Unknown colormap '" +:+ colormap_mode +:+ "', using 'jet' instead."],
     Ok out).
Proof.
  intros Hv Hin.
  destruct (intensity_valid img Hv) as (h & w & gray & _ & _ & _ & Hi & Hsh & Hlen & _).
  exists (pseudocolor_field h w cm_jet gray). split.
  - destruct (colorize_pseudocolor_known img gray h w "jet" Hi Hsh Hlen) as (c & Hc & ->);
      [done|].
    by injection Hc as <-.
  - apply (colorize_pseudocolor_unknown img gray h w _ Hi Hsh Hlen Hin).
Qed.

(** The loop of [colorize_pseudocolor_multiple], started from any
    dictionary. *)
Lemma for_modes_spec (img : ndarray) (names : list string)
    (results : gmap string ndarray) :
  valid_image img = true ->
  exists out results',
    for_modes img names results = (out, Ok results') /\
    out = names ≫= (fun name => (colorize_pseudocolor img name).1) /\
    dom results' = list_to_set names ∪ dom results /\
    (forall name, name ∈ names ->
       exists printed r, colorize_pseudocolor img name = (printed, Ok r) /\
                         results' !! name = Some r) /\
    (forall name, name ∉ names -> results' !! name = results !! name).
Proof.
  intros Hv.
  assert (forall name, exists printed r,
            colorize_pseudocolor img name = (printed, Ok r)) as Hcall.
  { intros name.
    destruct (intensity_valid img Hv) as (h & w & gray & _ & _ & _ & Hi & Hsh & Hlen & _).
    destruct (colorize_pseudocolor_returns img gray h w name Hi Hsh Hlen)
      as (printed & c & Hp).
    by exists printed, (pseudocolor_field h w c gray). }
  revert results. induction names as [|mode names IH]; intros results.
  - exists [], results. split; [done|]. split; [done|].
    split; [by rewrite list_to_set_nil, union_empty_l_L|]. split; [|done].
    intros name Hin. by apply elem_of_nil in Hin.
  - destruct (Hcall mode) as (printed & r & Hmode).
    destruct (IH (<[mode := r]> results)) as (out & results' & Hfor & Hout & Hdom & Hin & Hnot).
    exists (printed ++ out), results'. repeat split.
    + simpl. rewrite Hmode. unfold mbind, py_bind. by rewrite Hfor.
    + by rewrite bind_cons, Hmode, Hout.
    + rewrite Hdom, dom_insert_L, list_to_set_cons. by rewrite (assoc_L (∪)), (comm_L (∪) _ {[mode]}).
    + intros name Hname. destruct (decide (name ∈ names)) as [Hn|Hn]; [by apply Hin|].
      apply elem_of_cons in Hname as [->|?]; [|done].
      exists printed, r. split; [done|]. by rewrite (Hnot mode Hn), lookup_insert_eq.
    + intros name Hname. apply not_elem_of_cons in Hname as [Hne Hname].
      by rewrite (Hnot name Hname), lookup_insert_ne.
Qed.

(** C6. For every valid image and every list of colormap names,
    [colorize_pseudocolor_multiple] returns a dictionary whose keys are
    exactly the given names, each bound to what [colorize_pseudocolor]
    returns on the same image for that name; for [["jet", "hot"]] it has
    exactly these two keys; without a list it uses a default of exactly
    four names, all of the registry. *)
Theorem multiple_maps_each_name (img : ndarray) (colormap_modes : list string) :
  valid_image img = true ->
  (exists printed results,
     colorize_pseudocolor_multiple img (Some colormap_modes) = (printed, Ok results) /\
     dom results = list_to_set colormap_modes /\
     forall name, name ∈ colormap_modes ->
       exists printed' r, colorize_pseudocolor img name = (printed', Ok r) /\
                          results !! name = Some r) /\
  (exists results jet hot,
     colorize_pseudocolor_multiple img (Some ["jet"; "hot"]) = ([], Ok results) /\
     dom results = {["jet"; "hot"]} /\ size results = 2%nat /\
     colorize_pseudocolor img "jet" = ([], Ok jet) /\ results !! "jet" = Some jet /\
     colorize_pseudocolor img "hot" = ([], Ok hot) /\ results !! "hot" = Some hot) /\
  colorize_pseudocolor_multiple img None =
    colorize_pseudocolor_multiple img (Some ["jet"; "hot"; "viridis"; "plasma"]) /\
  length default_colormap_modes = 4%nat /\
  NoDup default_colormap_modes /\
  default_colormap_modes ⊆ get_available_colormaps.
Proof.
  intros Hv. split; [|split; [|split; [done|split; [done|split]]]].
  - destruct (for_modes_spec img colormap_modes ∅ Hv)
      as (out & results & Hfor & _ & Hdom & Hin & _).
    exists out, results. split; [done|]. split; [|done].
    by rewrite Hdom, dom_empty_L, union_empty_r_L.
  - destruct (intensity_valid img Hv) as (h & w & gray & _ & _ & _ & Hi & Hsh & Hlen & _).
    destruct (colorize_pseudocolor_known img gray h w "jet" Hi Hsh Hlen) as (cj & _ & Hj);
      [done|].
    destruct (colorize_pseudocolor_known img gray h w "hot" Hi Hsh Hlen) as (ch & _ & Hh);
      [done|].
    eexists _, _, _.
    split.
    { unfold colorize_pseudocolor_multiple. simpl. rewrite Hj, bind_ok, Hh, bind_ok. done. }
    split; [by rewrite !dom_insert_L, dom_empty_L, union_empty_r_L|].
    split; [by rewrite !map_size_insert_None|].
    split; [done|]. split; [by rewrite lookup_insert_ne, lookup_insert_eq|].
    split; [done|]. by rewrite lookup_insert_eq.
  - apply (bool_decide_unpack _). by vm_compute.
  - apply (bool_decide_unpack _). by vm_compute.
Qed.

(** C7. For every valid image whose samples lie in [[0, 255]] (so that
    every intensity lies in [[0, 1]]), [colorize_hsv] returns exactly what
    [colorize_hsv_advanced] returns for a hue shift of 0 and a saturation
    boost of 1, provided the luminance weighting keeps the unit interval. *)
Theorem colorize_hsv_is_advanced_default (img : ndarray) :
  valid_image img = true -> in_byte_range img = true -> luma_unit ->
  exists out,
    colorize_hsv img = ([], Ok out) /\
    colorize_hsv_advanced img 0 1 = ([], Ok out).
Proof.
  intros Hv Hr Hl.
  destruct (intensity_valid img Hv) as (h & w & gray & _ & _ & _ & Hi & Hsh & Hlen & Hu).
  specialize (Hu Hl Hr).
  eexists. split; [exact (colorize_hsv_valid img gray h w Hi Hsh Hlen)|].
  rewrite (colorize_hsv_advanced_valid img gray h w _ _ Hi Hsh Hlen).
  rewrite (bind_ext_Forall unit
             (fun I => [H_channel 0 I; S_channel 1 I; I])
             (fun I => [qc 6 10 - qc 45 100 * I; qc 4 1 * I * (1 - I); I])
             (data gray) Hu); [done|].
  intros I HI. by rewrite H_channel_base, S_channel_base.
Qed.


(** C9. The listing of the colormaps is the list of the registry's names
    in the order the registry is built in: a fixed, non-empty list that
    contains ["jet"], ["hot"] and ["viridis"]. *)
Theorem available_colormaps_listed :
  get_available_colormaps = COLORMAP_MODES.*1 /\
  get_available_colormaps =
    [ "jet"; "hot"; "cool"; "viridis"; "parula"; "plasma"; "inferno"; "magma";
      "spring"; "summer"; "autumn"; "winter"; "rainbow"; "turbo"; "hsv";
      "seismic"; "terrain" ] /\
  get_available_colormaps <> [] /\
  NoDup get_available_colormaps /\
  "jet" ∈ get_available_colormaps /\
  "hot" ∈ get_available_colormaps /\
  "viridis" ∈ get_available_colormaps.
Proof.
  split; [done|]. split; [done|]. split; [done|].
  repeat split; apply (bool_decide_unpack _); by vm_compute.
Qed.

(** C10. For every valid image, [colorize_pseudocolor] returns for the name
    ["parula"] exactly what it returns for the name ["viridis"]. *)
Theorem parula_is_viridis (img : ndarray) :
  valid_image img = true ->
  exists out,
    colorize_pseudocolor img "parula" = ([], Ok out) /\
    colorize_pseudocolor img "viridis" = ([], Ok out).
Proof.
  intros Hv.
  destruct (intensity_valid img Hv) as (h & w & gray & _ & _ & _ & Hi & Hsh & Hlen & _).
  destruct (colorize_pseudocolor_known img gray h w "parula" Hi Hsh Hlen) as (cp & Hcp & Hp);
    [done|].
  destruct (colorize_pseudocolor_known img gray h w "viridis" Hi Hsh Hlen) as (cv & Hcv & Hvi);
    [done|].
  injection Hcp as <-. injection Hcv as <-.
  by exists (pseudocolor_field h w cm_viridis gray).
Qed.


(** * Further properties of the colorizers *)

(** ** Sequencing of calls *)

Lemma bind_assoc {A B C} (m : py A) (f : A -> py B) (g : B -> py C) :
  ((m ≫= f) ≫= g) = (m ≫= fun a => f a ≫= g).
Proof.
  destruct m as [out [a|e]]; [|done]. unfold mbind, py_bind.
  destruct (f a) as [out1 [b|e]]; [|done].
  destruct (g b) as [out2 r]. by rewrite app_assoc.
Qed.

(** ** What the opening statements can do *)

Lemma valid_image_intro (a : ndarray) h w :
  wf a -> data a <> [] -> shape a = [h; w] \/ shape a = [h; w; 3%nat] ->
  valid_image a = true.
Proof.
  unfold wf, valid_image. intros Hwf Hne Hsh.
  assert (0 < product (shape a))%nat as Hp.
  { rewrite <- Hwf. destruct (data a); [done|simpl; lia]. }
  rewrite bool_decide_eq_true_2 by done. simpl.
  destruct Hsh as [Hsh|Hsh]; rewrite Hsh in *; simpl in Hp;
    rewrite !bool_decide_eq_true_2 by nia; done.
Qed.

(** The intensity field is computed silently; all that can go wrong is a
    [ValueError]. *)
Lemma intensity_outcome (img : ndarray) :
  intensity img = ([], Raise ValueError) \/ exists gray, intensity img = ([], Ok gray).
Proof.
  unfold intensity, img_rgb_normalized, Np.max.
  destruct (data img) as [|x xs]; [by left|].
  rewrite bind_ret. set (m := foldl maximum x xs).
  assert (forall n, img_gray n = ([], Raise ValueError) \/
                    exists gray, img_gray n = ([], Ok gray)) as Hg.
  { intros n. unfold img_gray, rgb2gray, copy. case_decide; [|right; by eexists].
    destruct (last (shape n)) as [[|[|[|[|c]]]]|]; auto. right. by eexists. }
  case_decide; rewrite bind_ret; apply Hg.
Qed.

Lemma colorize_hsv_from_intensity (img : ndarray) :
  colorize_hsv img =
  (gray ← intensity img;
   '(h, w) ← unpack2 (shape gray);
   img_hsv ← hsv_image h w (Np.map (fun I => qc 6 10 - qc 45 100 * I) gray)
                (Np.map (fun I => qc 4 1 * I * (1 - I)) gray) gray;
   img_rgb_colorized ← hsv2rgb img_hsv;
   mret (Np.clip img_rgb_colorized 0 1)).
Proof. unfold colorize_hsv, intensity. by rewrite bind_assoc. Qed.

Lemma colorize_hsv_advanced_from_intensity (img : ndarray) hue_shift saturation_boost :
  colorize_hsv_advanced img hue_shift saturation_boost =
  (gray ← intensity img;
   '(h, w) ← unpack2 (shape gray);
   img_hsv ← hsv_image h w (Np.map (H_channel hue_shift) gray)
                (Np.map (S_channel saturation_boost) gray) gray;
   img_rgb_colorized ← hsv2rgb img_hsv;
   mret (Np.clip img_rgb_colorized 0 1)).
Proof. unfold colorize_hsv_advanced, intensity. by rewrite bind_assoc. Qed.

Lemma colorize_pseudocolor_as_intensity (img : ndarray) name :
  colorize_pseudocolor img name =
  (gray ← intensity img;
   colormap_mode ←
     (if negb (dict_in (lower name) COLORMAP_MODES)
      then _ ← print (unknown_colormap_warning name); mret "jet"
      else mret name);
   colormap ← dict_get COLORMAP_MODES (lower colormap_mode);
   img_colored ← cm_rgb (cm_call colormap gray);
   mret (Np.clip img_colored 0 1)).
Proof. unfold colorize_pseudocolor, intensity. by rewrite bind_assoc. Qed.

(** The intensity field of a well-formed, non-empty array, by its axes. *)
Lemma intensity_by_shape (img : ndarray) :
  wf img -> data img <> [] ->
  exists n, img_rgb_normalized img = ([], Ok n) /\ shape n = shape img /\
            length (data n) = length (data img) /\
            intensity img = img_gray n.
Proof.
  intros Hwf Hne.
  destruct (normalized_nonempty img Hne) as (m & n & _ & _ & _ & Hn & Hnd).
  exists n. split; [done|].
  assert (shape n = shape img /\ length (data n) = length (data img)) as [? ?].
  { subst n. case_decide; [|done]. simpl. by rewrite length_fmap. }
  repeat split; try done. unfold intensity. by rewrite Hn, bind_ok.
Qed.

(** X1. On a well-formed array the two HSV colorizers return exactly when
    the array is a non-empty [(H, W)] or [(H, W, 3)] image; on every other
    array, whatever its number of axes, they raise [ValueError].  They
    print nothing. *)
Theorem colorize_hsv_domain (img : ndarray) (hue_shift saturation_boost : Qc) :
  wf img ->
  if valid_image img
  then exists out out',
         colorize_hsv img = ([], Ok out) /\
         colorize_hsv_advanced img hue_shift saturation_boost = ([], Ok out')
  else colorize_hsv img = ([], Raise ValueError) /\
       colorize_hsv_advanced img hue_shift saturation_boost = ([], Raise ValueError).
Proof.
  intros Hwf. destruct (valid_image img) eqn:Hv.
  { destruct (intensity_valid img Hv) as (h & w & gray & _ & _ & _ & Hi & Hsh & Hlen & _).
    eexists _, _. split.
    - exact (colorize_hsv_valid img gray h w Hi Hsh Hlen).
    - exact (colorize_hsv_advanced_valid img gray h w _ _ Hi Hsh Hlen). }
  rewrite colorize_hsv_from_intensity, colorize_hsv_advanced_from_intensity.
  destruct (decide (data img = [])) as [He|Hne].
  { unfold intensity, img_rgb_normalized. by rewrite (max_empty img He). }
  destruct (intensity_by_shape img Hwf Hne) as (n & _ & Hshn & _ & ->).
  unfold img_gray, ndim, rgb2gray, copy. rewrite Hshn.
  destruct (shape img) as [|a [|b [|c [|d rest]]]] eqn:Hsh.
  - rewrite decide_False by done. by rewrite !bind_ret, Hshn.
  - rewrite decide_False by done. by rewrite !bind_ret, Hshn.
  - by rewrite (valid_image_intro img a b) in Hv by auto.
  - destruct (decide (c = 3%nat)) as [->|Hc].
    + by rewrite (valid_image_intro img a b) in Hv by auto.
    + rewrite decide_True by done. simpl last.
      by destruct c as [|[|[|[|c]]]].
  - rewrite decide_False by (simpl; lia). by rewrite !bind_ret, Hshn.
Qed.


(** ** The choice of the colormap *)

Lemma cm_rgb_outcome (v : cm_value) :
  (exists a, cm_rgb v = ([], Ok a)) \/
  cm_rgb v = ([], Raise IndexError) \/ cm_rgb v = ([], Raise TypeError).
Proof.
  destruct v as [a|t]; simpl; [|auto]. unfold slice_axis2_to3.
  destruct (shape a) as [|h [|w [|c rest]]]; auto. left. by eexists.
Qed.

(** The name is looked up in lower case; an unregistered name is announced
    and replaced by ["jet"].  The lookup itself never fails. *)
Lemma select_colormap {B} (name : string) (K : colormap -> py B) :
  exists c,
    (if dict_in (lower name) COLORMAP_MODES
     then dict_get COLORMAP_MODES (lower name) = ([], Ok c)
     else c = cm_jet) /\
    (colormap_mode ←
       (if negb (dict_in (lower name) COLORMAP_MODES)
        then _ ← print (unknown_colormap_warning name); mret "jet"
        else mret name);
     colormap ← dict_get COLORMAP_MODES (lower colormap_mode);
     K colormap) =
    ((if dict_in (lower name) COLORMAP_MODES
      then [] else [unknown_colormap_warning name]) ++ (K c).1, (K c).2).
Proof.
  destruct (dict_in (lower name) COLORMAP_MODES) eqn:Hin; simpl negb; cbv iota.
  - destruct (dict_get_in _ _ Hin) as (c & Hc & _). exists c. split; [done|].
    rewrite bind_ret, Hc, bind_ok. by destruct (K c).
  - exists cm_jet. split; [done|].
    unfold print, mbind, py_bind, mret, py_ret. simpl. by destruct (K cm_jet).
Qed.

(** The whole of [colorize_pseudocolor] after the intensity field. *)
Lemma colorize_pseudocolor_after_intensity (img gray : ndarray) name :
  intensity img = ([], Ok gray) ->
  exists c,
    (if dict_in (lower name) COLORMAP_MODES
     then dict_get COLORMAP_MODES (lower name) = ([], Ok c)
     else c = cm_jet) /\
    colorize_pseudocolor img name =
    ((if dict_in (lower name) COLORMAP_MODES
      then [] else [unknown_colormap_warning name]) ++
       (img_colored ← cm_rgb (cm_call c gray); mret (Np.clip img_colored 0 1)).1,
     (img_colored ← cm_rgb (cm_call c gray); mret (Np.clip img_colored 0 1)).2).
Proof.
  intros Hi. rewrite colorize_pseudocolor_as_intensity, Hi, bind_ok.
  apply (select_colormap name
           (fun c => img_colored ← cm_rgb (cm_call c gray);
                     mret (Np.clip img_colored 0 1))).
Qed.

(** X2. Whatever the array and the name, [colorize_pseudocolor] raises
    nothing but [ValueError], [IndexError] or [TypeError] (never the
    [KeyError] of a failed registry lookup), and prints nothing but the
    fallback warning: that one line exactly when the intensity field was
    computed and the lower-case name is not registered, also when the call
    then fails. *)
Theorem colorize_pseudocolor_outcomes (img : ndarray) (colormap_mode : string) :
  exists printed r,
    colorize_pseudocolor img colormap_mode = (printed, r) /\
    printed =
      match (intensity img).2 with
      | Ok _ => if dict_in (lower colormap_mode) COLORMAP_MODES then []
                else [unknown_colormap_warning colormap_mode]
      | Raise _ => []
      end /\
    match r with
    | Ok _ => True
    | Raise e => (e = ValueError \/ e = IndexError \/ e = TypeError) /\ e <> KeyError
    end.
Proof.
  destruct (intensity_outcome img) as [Hi|[gray Hi]].
  { rewrite colorize_pseudocolor_as_intensity, Hi. eexists _, _. split; [done|].
    split; [done|]. split; [auto|done]. }
  destruct (colorize_pseudocolor_after_intensity img gray colormap_mode Hi) as (c & _ & ->).
  rewrite Hi. eexists _, _. split; [done|].
  destruct (cm_rgb_outcome (cm_call c gray)) as [[a Ha]|[Ha|Ha]]; rewrite Ha.
  - rewrite bind_ok. simpl. by rewrite app_nil_r.
  - simpl. rewrite app_nil_r. split; [done|]. split; [auto|done].
  - simpl. rewrite app_nil_r. split; [done|]. split; [auto|done].
Qed.

(** X3. [colorize_pseudocolor] on a well-formed, non-empty array, by the
    number of axes: [TypeError] without axes, [IndexError] with one axis, an
    [(H, W, 3)] result with two axes or with three axes of which the last
    has size 3, [ValueError] with three axes otherwise.  An array with four
    or more axes is not refused: it is coloured sample by sample without a
    grayscale reduction, and the third axis of the result is cut to at most
    3. *)
Theorem colorize_pseudocolor_by_axes (img : ndarray) (colormap_mode : string) :
  wf img -> data img <> [] ->
  match shape img with
  | [] => raises (colorize_pseudocolor img colormap_mode) TypeError
  | [_] => raises (colorize_pseudocolor img colormap_mode) IndexError
  | [h; w] =>
      exists printed out,
        colorize_pseudocolor img colormap_mode = (printed, Ok out) /\
        shape out = [h; w; 3%nat]
  | [h; w; c] =>
      if decide (c = 3%nat)
      then exists printed out,
             colorize_pseudocolor img colormap_mode = (printed, Ok out) /\
             shape out = [h; w; 3%nat]
      else colorize_pseudocolor img colormap_mode = ([], Raise ValueError)
  | h :: w :: c :: rest =>
      exists printed out,
        colorize_pseudocolor img colormap_mode = (printed, Ok out) /\
        shape out = h :: w :: Nat.min c 3 :: rest ++ [4%nat]
  end.
Proof.
  intros Hwf Hne.
  assert (forall h w, shape img = [h; w] \/ shape img = [h; w; 3%nat] ->
            exists printed out,
              colorize_pseudocolor img colormap_mode = (printed, Ok out) /\
              shape out = [h; w; 3%nat]) as Himage.
  { intros h w Hsh. pose proof (valid_image_intro img h w Hwf Hne Hsh) as Hv.
    destruct (intensity_valid img Hv) as (h' & w' & gray & _ & _ & Hs' & Hi & Hg & Hlen & _).
    assert (h' = h /\ w' = w) as [-> ->].
    { destruct Hsh as [Hsh|Hsh], Hs' as [Hs'|Hs']; rewrite Hsh in Hs';
        by injection Hs'. }
    destruct (colorize_pseudocolor_returns img gray h w colormap_mode Hi Hg Hlen)
      as (printed & c & Hp).
    by eexists _, _. }
  destruct (intensity_by_shape img Hwf Hne) as (n & _ & Hshn & Hlenn & Hi).
  unfold img_gray, ndim, rgb2gray, copy in Hi. rewrite Hshn in Hi.
  destruct (shape img) as [|a [|b [|c [|d rest]]]] eqn:Hsh.
  - rewrite decide_False in Hi by done.
    destruct (colorize_pseudocolor_after_intensity img n colormap_mode Hi) as (cm & _ & ->).
    assert (exists x, data n = [x]) as [x Hx].
    { unfold wf in Hwf. rewrite Hsh in Hwf. simpl in Hwf. rewrite <- Hlenn in Hwf.
      destruct (data n) as [|x [|? ?]]; try done. by exists x. }
    unfold cm_call. rewrite Hshn, Hx. simpl. by eexists.
  - rewrite decide_False in Hi by done.
    destruct (colorize_pseudocolor_after_intensity img n colormap_mode Hi) as (cm & _ & ->).
    unfold cm_call. rewrite Hshn. simpl. by eexists.
  - apply Himage. auto.
  - destruct (decide (c = 3%nat)) as [->|Hc]; [apply Himage; auto|].
    rewrite decide_True in Hi by done. simpl last in Hi.
    rewrite colorize_pseudocolor_as_intensity.
    by destruct c as [|[|[|[|c]]]]; rewrite Hi.
  - rewrite decide_False in Hi by (simpl; lia).
    destruct (colorize_pseudocolor_after_intensity img n colormap_mode Hi) as (cm & _ & ->).
    unfold cm_call. rewrite Hshn.
    eexists _, _. split; [done|]. simpl. done.
Qed.


(** ** The HSV image, pixel by pixel *)

Lemma triples_lookup (f g k : Qc -> Qc) (d : list Qc) (p : nat) :
  (d ≫= fun I => [f I; g I; k I]) !! (3 * p)%nat = f <$> d !! p /\
  (d ≫= fun I => [f I; g I; k I]) !! (3 * p + 1)%nat = g <$> d !! p /\
  (d ≫= fun I => [f I; g I; k I]) !! (3 * p + 2)%nat = k <$> d !! p.
Proof.
  revert p. induction d as [|I d IH]; intros p; [done|].
  rewrite bind_cons. destruct p as [|p].
  - done.
  - destruct (IH p) as (H0 & H1 & H2).
    rewrite !lookup_app_r by (simpl; lia). simpl length.
    replace (3 * S p - 3)%nat with (3 * p)%nat by lia.
    replace (3 * S p + 1 - 3)%nat with (3 * p + 1)%nat by lia.
    replace (3 * S p + 2 - 3)%nat with (3 * p + 2)%nat by lia.
    done.
Qed.

Lemma clip_mono x y : x <= y -> Sample.clip x 0 1 <= Sample.clip y 0 1.
Proof.
  intros Hxy. unfold Sample.clip, minimum, maximum.
  repeat case_decide; to_Q; lra.
Qed.


(** X6. For an intensity in [[0, 1]] the saturation grows with the
    saturation boost, from zero at a boost of zero: a boost of zero or less
    removes all saturation. *)
Theorem saturation_boost_is_monotone (I boost boost' : Qc) :
  unit I -> boost <= boost' ->
  0 <= S_channel boost I /\
  S_channel boost I <= S_channel boost' I /\
  S_channel 0 I = 0.
Proof.
  intros HI Hb. pose proof (parabola_unit I HI) as [Hp0 Hp1].
  split; [apply clip_unit|]. split.
  - apply clip_mono. to_Q. nra.
  - unfold S_channel. replace (qc 4 1 * I * (1 - I) * 0) with 0 by ring.
    by apply Qc_is_canon.
Qed.


(** ** Samples outside the 8-bit range *)

Lemma intensity_gray_scaled (img : ndarray) h w s :
  valid_image img = true -> shape img = [h; w] -> s ∈ data img -> 1 < s ->
  intensity img = ([], Ok (Np.map (fun x => x / qc 255 1) img)).
Proof.
  intros Hv Hsh Hs H1. pose proof (valid_image_nonempty img Hv) as Hne.
  destruct (normalized_nonempty img Hne) as (m & n & _ & _ & Hall & Hn & ->).
  rewrite Forall_forall in Hall. specialize (Hall s Hs).
  rewrite decide_True in Hn by (eapply Qclt_le_trans; done).
  unfold intensity. rewrite Hn, bind_ok. unfold img_gray, ndim. simpl shape.
  rewrite Hsh. by rewrite decide_False by done.
Qed.

(** X7. Samples above 255 are not treated apart: in a grayscale image
    that holds a sample [s > 255], every sample is still divided by 255, and
    at the pixel of [s] [colorize_hsv] hands to the conversion the value
    [s / 255 > 1] and the saturation [4 (s/255) (1 - s/255) < 0], which the
    basic variant does not clamp. *)
Theorem colorize_hsv_above_8bit (img : ndarray) (h w p : nat) (s : Qc) :
  valid_image img = true -> shape img = [h; w] ->
  data img !! p = Some s -> qc 255 1 < s ->
  exists img_hsv,
    img_hsv = NdArray [h; w; 3%nat]
                (((fun x => x / qc 255 1) <$> data img) ≫= fun I =>
                   [qc 6 10 - qc 45 100 * I; qc 4 1 * I * (1 - I); I]) /\
    colorize_hsv img =
      (img_rgb_colorized ← hsv2rgb img_hsv; mret (Np.clip img_rgb_colorized 0 1)) /\
    data img_hsv !! (3 * p + 1)%nat =
      Some (qc 4 1 * (s / qc 255 1) * (1 - s / qc 255 1)) /\
    data img_hsv !! (3 * p + 2)%nat = Some (s / qc 255 1) /\
    qc 4 1 * (s / qc 255 1) * (1 - s / qc 255 1) < 0 /\
    1 < s / qc 255 1.
Proof.
  intros Hv Hsh Hp Hs.
  assert (1 < s) as H1 by (to_Q; lra).
  pose proof (intensity_gray_scaled img h w s Hv Hsh
                (list_elem_of_lookup_2 _ _ _ Hp) H1) as Hi.
  assert (length (data img) = (h * w)%nat) as Hlen.
  { destruct (valid_image_inv img Hv) as [Hwf _]. unfold wf in Hwf.
    rewrite Hwf, Hsh. simpl. lia. }
  eexists. split; [done|]. split.
  { rewrite (colorize_hsv_valid img _ h w Hi) by (simpl; rewrite ?length_fmap; done).
    rewrite (hsv2rgb_spec _ h w) by done. by rewrite bind_ok. }
  destruct (triples_lookup (fun I => qc 6 10 - qc 45 100 * I)
              (fun I => qc 4 1 * I * (1 - I)) (fun I => I)
              ((fun x => x / qc 255 1) <$> data img) p) as (_ & HS & HV).
  simpl data. rewrite HS, HV, list_lookup_fmap, Hp. simpl.
  split; [done|]. split; [done|].
  assert (s / qc 255 1 = s * qc 1 255) as ->.
  { unfold Qcdiv. f_equal; by apply Qc_is_canon. }
  split; to_Q; nra.
Qed.

(** ** Normalizing twice *)

(** X8. For an image with samples in [[0, 255]] the field that the
    normalization returns is left unchanged by a second normalization, and
    each colorizer returns on that field what it returns on the image:
    scaling an 8-bit image to the unit interval beforehand changes
    nothing. *)
Theorem normalized_image_is_fixed (img n : ndarray)
    (hue_shift saturation_boost : Qc) (colormap_mode : string) :
  in_byte_range img = true ->
  img_rgb_normalized img = ([], Ok n) ->
  img_rgb_normalized n = ([], Ok n) /\
  colorize_hsv n = colorize_hsv img /\
  colorize_hsv_advanced n hue_shift saturation_boost =
    colorize_hsv_advanced img hue_shift saturation_boost /\
  colorize_pseudocolor n colormap_mode = colorize_pseudocolor img colormap_mode.
Proof.
  intros Hr Hn. pose proof (normalized_unit img n Hr Hn) as Hu.
  assert (img_rgb_normalized n = ([], Ok n)) as Hnn.
  { assert (data n <> []) as Hne.
    { destruct (decide (data img = [])) as [He|Hne].
      - unfold img_rgb_normalized in Hn. by rewrite (max_empty img He) in Hn.
      - destruct (normalized_nonempty img Hne) as (m & n' & _ & _ & _ & Hn' & ->).
        rewrite Hn' in Hn. injection Hn as <-.
        case_decide; [|done]. simpl. by destruct (data img). }
    destruct (normalized_nonempty n Hne) as (m & n' & _ & Hin & _ & Hn' & ->).
    rewrite Hn'. rewrite decide_False; [done|].
    rewrite Forall_forall in Hu. destruct (Hu m Hin) as [_ Hm1].
    by apply Qcle_not_lt. }
  split; [done|].
  unfold colorize_hsv, colorize_hsv_advanced, colorize_pseudocolor.
  by rewrite Hnn, Hn.
Qed.


(** ** A grayscale image stored with three equal channels *)

Lemma gray_pixels_equal_channels (F : Qc -> Qc) (d : list Qc) :
  (forall x, luma x x x = x) ->
  gray_pixels (F <$> (d ≫= fun x => [x; x; x])) = F <$> d.
Proof.
  intros Hl. induction d as [|x d IH]; [done|].
  rewrite bind_cons, fmap_app.
  change (gray_pixels ((F <$> [x; x; x]) ++ (F <$> (d ≫= fun x => [x; x; x]))))
    with (luma (F x) (F x) (F x) :: gray_pixels (F <$> (d ≫= fun x => [x; x; x]))).
  by rewrite Hl, IH.
Qed.

(** X9. If the luminance of a gray colour is that gray, then an image
    stored with three equal channels has the intensity field of the
    grayscale image it repeats, and every colorizer returns on it what it
    returns on the grayscale image. *)
Theorem equal_channels_as_grayscale (g : ndarray) (h w : nat)
    (hue_shift saturation_boost : Qc) (colormap_mode : string) :
  (forall x, luma x x x = x) ->
  wf g -> shape g = [h; w] -> data g <> [] ->
  let rgb := NdArray [h; w; 3%nat] (data g ≫= fun x => [x; x; x]) in
  intensity rgb = intensity g /\
  colorize_hsv rgb = colorize_hsv g /\
  colorize_hsv_advanced rgb hue_shift saturation_boost =
    colorize_hsv_advanced g hue_shift saturation_boost /\
  colorize_pseudocolor rgb colormap_mode = colorize_pseudocolor g colormap_mode.
Proof.
  intros Hl Hwf Hsh Hne rgb.
  assert (intensity rgb = intensity g) as Hi.
  { assert (data rgb <> []) as Hne'.
    { subst rgb. simpl. destruct (data g); [done|]. by rewrite bind_cons. }
    destruct (normalized_nonempty g Hne) as (m & n & _ & Hm & Hall & Hn & Hnd).
    destruct (normalized_nonempty rgb Hne') as (m' & n' & _ & Hm' & Hall' & Hn' & Hnd').
    assert (m' = m) as ->.
    { rewrite Forall_forall in Hall, Hall'. apply Qcle_antisym.
      - subst rgb. simpl in Hm'. apply list_elem_of_bind in Hm' as (x & Hx & Hxg).
        apply Hall. by repeat (apply elem_of_cons in Hx as [->|Hx]; [done|]);
          apply elem_of_nil in Hx.
      - apply Hall'. subst rgb. simpl. apply list_elem_of_bind. exists m.
        split; [|done]. apply elem_of_cons. by left. }
    unfold intensity. rewrite Hn, Hn', !bind_ok. subst n n'.
    unfold img_gray, rgb2gray, ndim, copy.
    case_decide; simpl shape; rewrite ?Hsh; simpl length;
      rewrite decide_True by done; rewrite decide_False by done; simpl last;
      unfold mret, py_ret; do 2 f_equal.
    - unfold Np.map. rewrite Hsh. simpl. f_equal.
      by apply gray_pixels_equal_channels.
    - destruct g as [sh d]. simpl in *. subst sh. f_equal.
      pose proof (gray_pixels_equal_channels (fun x => x) d Hl) as Hg.
      by rewrite !list_fmap_id in Hg. }
  split; [done|].
  rewrite !colorize_hsv_from_intensity, !colorize_hsv_advanced_from_intensity,
    !colorize_pseudocolor_as_intensity.
  by rewrite Hi.
Qed.

(** ** The batch variant *)

(** X10. The dictionary that [colorize_pseudocolor_multiple] returns
    depends on the names only as a set: the order of the list and
    repetitions in it do not change the result (they change the order and
    number of the warnings only). *)
Theorem multiple_depends_on_the_set_of_names (img : ndarray)
    (names names' : list string) :
  valid_image img = true ->
  (forall name, name ∈ names <-> name ∈ names') ->
  exists printed printed' results,
    colorize_pseudocolor_multiple img (Some names) = (printed, Ok results) /\
    colorize_pseudocolor_multiple img (Some names') = (printed', Ok results).
Proof.
  intros Hv Hset.
  destruct (for_modes_spec img names ∅ Hv) as (out & res & Hfor & _ & _ & Hin & Hnot).
  destruct (for_modes_spec img names' ∅ Hv) as (out' & res' & Hfor' & _ & _ & Hin' & Hnot').
  exists out, out', res. split; [done|].
  unfold colorize_pseudocolor_multiple. simpl. rewrite Hfor'. do 2 f_equal.
  apply map_eq. intros name.
  destruct (decide (name ∈ names)) as [Hn|Hn].
  - destruct (Hin name Hn) as (p1 & r1 & Hc1 & ->).
    destruct (Hin' name (proj1 (Hset name) Hn)) as (p2 & r2 & Hc2 & ->).
    rewrite Hc1 in Hc2. by injection Hc2 as _ ->.
  - rewrite (Hnot name Hn), (Hnot' name); [done|]. by rewrite <- Hset.
Qed.

(** X11. On a valid image [colorize_pseudocolor_multiple] prints one
    warning for each name of the list whose lower-case form is not
    registered, in the order of the list, and nothing else. *)
Theorem multiple_prints_the_warnings (img : ndarray) (names : list string) :
  valid_image img = true ->
  (colorize_pseudocolor_multiple img (Some names)).1 =
  unknown_colormap_warning <$>
    filter (fun name => dict_in (lower name) COLORMAP_MODES = false) names.
Proof.
  intros Hv.
  destruct (for_modes_spec img names ∅ Hv) as (out & res & Hfor & Hout & _).
  unfold colorize_pseudocolor_multiple. simpl. rewrite Hfor. simpl. subst out.
  clear Hfor res.
  destruct (intensity_valid img Hv) as (h & w & gray & _ & _ & _ & Hi & Hsh & Hlen & _).
  induction names as [|name names IH]; [done|].
  rewrite bind_cons, IH.
  destruct (dict_in (lower name) COLORMAP_MODES) eqn:Hin.
  - destruct (colorize_pseudocolor_known img gray h w name Hi Hsh Hlen Hin) as (c & _ & ->).
    rewrite filter_cons_False; [done|]. by rewrite Hin.
  - rewrite (colorize_pseudocolor_unknown img gray h w name Hi Hsh Hlen Hin).
    by rewrite filter_cons_True.
Qed.

(** ** The registry *)

Lemma registry_binding (name : string) (c : colormap) :
  (name, c) ∈ COLORMAP_MODES ->
  dict_in name COLORMAP_MODES = true /\ dict_get COLORMAP_MODES name = ([], Ok c).
Proof.
  unfold COLORMAP_MODES. intros Hin.
  repeat (apply elem_of_cons in Hin as [Hin|Hin];
          [injection Hin as -> ->; by split|]).
  by apply elem_of_nil in Hin.
Qed.

Lemma fmap_bind_list {A B C} (f : B -> C) (g : A -> list B) (l : list A) :
  f <$> (l ≫= g) = l ≫= fun x => f <$> g x.
Proof.
  induction l as [|x l IH]; [done|]. by rewrite !bind_cons, fmap_app, IH.
Qed.

(** X12. Every entry of the registry is reachable, in any letter case: on
    a valid image, a name whose lower-case form the registry binds to a
    colormap is coloured with that colormap and without a warning; each
    output pixel is the colour the colormap gives to the intensity, without
    its alpha component, clipped to [[0, 1]]. *)
Theorem registered_name_selects_its_colormap (img : ndarray)
    (colormap_mode : string) (c : colormap) :
  valid_image img = true ->
  (lower colormap_mode, c) ∈ COLORMAP_MODES ->
  exists h w gray,
    intensity img = ([], Ok gray) /\ shape gray = [h; w] /\
    colorize_pseudocolor img colormap_mode =
    ([], Ok (NdArray [h; w; 3%nat] (data gray ≫= fun x =>
       let '(r, g, b, _) := cm_lookup c x in
       [Sample.clip r 0 1; Sample.clip g 0 1; Sample.clip b 0 1]))).
Proof.
  intros Hv Hreg. destruct (registry_binding _ _ Hreg) as [Hin Hget].
  destruct (intensity_valid img Hv) as (h & w & gray & _ & _ & _ & Hi & Hsh & Hlen & _).
  exists h, w, gray. split; [done|]. split; [done|].
  destruct (colorize_pseudocolor_known img gray h w colormap_mode Hi Hsh Hlen Hin)
    as (c' & Hc' & ->).
  rewrite Hget in Hc'. injection Hc' as <-.
  unfold pseudocolor_field, Np.clip, Np.map. simpl. do 3 f_equal.
  rewrite fmap_bind_list. apply list_bind_ext; [|done].
  intros x. unfold rgba. by destruct (cm_lookup c x) as [[[r g] b] a].
Qed.


(** ** The hues of the basic variant *)

(** X13. On a valid image with samples in [[0, 255]], and a luminance
    that keeps the unit interval, [colorize_hsv] hands to the conversion, at
    every pixel, a hue between 0.15 (yellow) and 0.6 (blue), a saturation
    in [[0, 1]] and a value in [[0, 1]]: no other hues are ever used. *)
Theorem colorize_hsv_hues_blue_to_yellow (img : ndarray) :
  valid_image img = true -> in_byte_range img = true -> luma_unit ->
  exists h w gray,
    intensity img = ([], Ok gray) /\ shape gray = [h; w] /\
    colorize_hsv img =
    (img_rgb_colorized ←
       hsv2rgb (NdArray [h; w; 3%nat] (data gray ≫= fun I =>
         [qc 6 10 - qc 45 100 * I; qc 4 1 * I * (1 - I); I]));
     mret (Np.clip img_rgb_colorized 0 1)) /\
    forall p, (p < h * w)%nat ->
      exists H S V,
        (data gray ≫= fun I =>
           [qc 6 10 - qc 45 100 * I; qc 4 1 * I * (1 - I); I]) !! (3 * p)%nat
          = Some H /\
        (data gray ≫= fun I =>
           [qc 6 10 - qc 45 100 * I; qc 4 1 * I * (1 - I); I]) !! (3 * p + 1)%nat
          = Some S /\
        (data gray ≫= fun I =>
           [qc 6 10 - qc 45 100 * I; qc 4 1 * I * (1 - I); I]) !! (3 * p + 2)%nat
          = Some V /\
        qc 15 100 <= H /\ H <= qc 6 10 /\ unit S /\ unit V.
Proof.
  intros Hv Hr Hl.
  destruct (intensity_valid img Hv) as (h & w & gray & _ & _ & _ & Hi & Hsh & Hlen & Hu).
  specialize (Hu Hl Hr).
  exists h, w, gray. split; [done|]. split; [done|]. split.
  - rewrite (colorize_hsv_valid img gray h w Hi Hsh Hlen).
    rewrite (hsv2rgb_spec _ h w) by done. by rewrite bind_ok.
  - intros p Hp. rewrite <- Hlen in Hp.
    destruct (lookup_lt_is_Some_2 _ _ Hp) as [I HI].
    destruct (triples_lookup (fun I => qc 6 10 - qc 45 100 * I)
                (fun I => qc 4 1 * I * (1 - I)) (fun I => I) (data gray) p)
      as (H0 & H1 & H2).
    rewrite H0, H1, H2, HI. eexists _, _, _. do 3 (split; [done|]).
    rewrite Forall_forall in Hu.
    pose proof (Hu I (list_elem_of_lookup_2 _ _ _ HI)) as HIu.
    split; [|split; [|split; [by apply parabola_unit|done]]];
      destruct HIu; to_Q; lra.
Qed.

Lemma kernel_luma_gray x : Kernels.luma x x x = x.
Proof. unfold Kernels.luma. to_Q. lra. Qed.

End Colorizers.

(** * The colorizers on concrete images *)

Section Runs.
Import Sample Kernels Examples.
Local Open Scope Q_scope.

(** A field with maximum 1 is kept; 8-bit samples are divided by 255. *)
Example normalized_unit_field :
  run (img_rgb_normalized gray_2x2) = ([], inr ([2; 2]%nat, [0; 1 # 2; 1; 1 # 4])).
Proof. vm_compute. reflexivity. Qed.

Example normalized_8bit_field :
  run (img_rgb_normalized gray_1x3) = ([], inr ([1; 3]%nat, [0; 1 # 5; 1])).
Proof. vm_compute. reflexivity. Qed.

(** The luminance of pure red, and of a gray. *)
Example intensity_rgb :
  run (intensity luma rgb_1x2) = ([], inr ([1; 2]%nat, [17 # 80; 1 # 5])).
Proof. vm_compute. reflexivity. Qed.

(** Black stays black, white stays white, and mid-gray takes the hue
    [0.375] at full saturation. *)
Example colorize_hsv_gray_1x3 :
  run (colorize_hsv luma hsv2rgb_px (NdArray [1; 3]%nat [0; qc 1 2; 1]%Qc)) =
  ([], inr ([1; 3; 3]%nat, [0; 0; 0; 0; 1 # 2; 1 # 8; 1; 1; 1])).
Proof. vm_compute. reflexivity. Qed.

(** 8-bit samples are divided by 255: the sample 51 is the intensity 0.2. *)
Example colorize_hsv_gray_8bit :
  run (colorize_hsv luma hsv2rgb_px gray_1x3) =
  ([], inr ([1; 3; 3]%nat, [0; 0; 0; 9 # 125; 601 # 3125; 1 # 5; 1; 1; 1])).
Proof. vm_compute. reflexivity. Qed.

Example colorize_hsv_advanced_boost :
  run (colorize_hsv_advanced luma hsv2rgb_px
         (NdArray [1; 3]%nat [0; qc 1 2; 1]%Qc) (qc 3 10) (qc 2 1)) =
  ([], inr ([1; 3; 3]%nat, [0; 0; 0; 1 # 40; 0; 1 # 2; 1; 1; 1])).
Proof. vm_compute. reflexivity. Qed.

Example colorize_pseudocolor_upper_case :
  run (colorize_pseudocolor luma cm_lookup rgb_1x2 "JET") =
  ([], inr ([1; 2; 3]%nat, [17 # 80; 0; 63 # 80; 1 # 5; 0; 4 # 5])).
Proof. vm_compute. reflexivity. Qed.

Example colorize_pseudocolor_unknown_name :
  run (colorize_pseudocolor luma cm_lookup rgb_1x2 "not-a-real-colormap") =
  (["Warning: Unknown colormap 'not-a-real-colormap', using 'jet' instead."],
   inr ([1; 2; 3]%nat, [17 # 80; 0; 63 # 80; 1 # 5; 0; 4 # 5])).
Proof. vm_compute. reflexivity. Qed.

Example colorize_pseudocolor_multiple_keys :
  (colorize_pseudocolor_multiple luma cm_lookup gray_2x2 (Some ["hot"; "HOT"; "x"])).1 =
    ["Warning: Unknown colormap 'x', using 'jet' instead."] /\
  match (colorize_pseudocolor_multiple luma cm_lookup gray_2x2 (Some ["hot"; "HOT"; "x"])).2 with
  | Ok results => dom results = {["hot"; "HOT"; "x"]}
  | Raise _ => False
  end.
Proof. split; [by vm_compute|]. simpl. by rewrite !dom_insert_L, dom_empty_L, union_empty_r_L. Qed.

(** A stack of images is not refused: each sample is coloured and the
    third axis is cut. *)
Example colorize_pseudocolor_four_axes :
  run (colorize_pseudocolor luma cm_lookup stack_1x1x4x2 "jet") =
  ([], inr ([1; 1; 3; 2; 4]%nat,
            [0; 0; 1; 1;  1 # 8; 0; 7 # 8; 1;  1 # 4; 0; 3 # 4; 1;
             3 # 8; 0; 5 # 8; 1;  1 # 2; 0; 1 # 2; 1;  5 # 8; 0; 3 # 8; 1])).
Proof. vm_compute. reflexivity. Qed.

(** A 16-bit sample of 510 becomes the intensity 2; both HSV variants
    return white there. *)
Example colorize_hsv_16bit :
  run (colorize_hsv luma hsv2rgb_px gray16_1x2) =
  ([], inr ([1; 2; 3]%nat, [9 # 125; 601 # 3125; 1 # 5; 1; 1; 1])).
Proof. vm_compute. reflexivity. Qed.

Example colorize_hsv_four_channels :
  run (colorize_hsv luma hsv2rgb_px rgba_1x1) = ([], inl ValueError).
Proof. vm_compute. reflexivity. Qed.

Example colorize_pseudocolor_one_axis :
  run (colorize_pseudocolor luma cm_lookup (NdArray [2]%nat [0; 1]%Qc) "jet") =
  ([], inl IndexError).
Proof. vm_compute. reflexivity. Qed.

End Runs.

(** * The claims on concrete images *)

Section Instances.
Import Sample Kernels Examples.
Local Open Scope Qc_scope.

Lemma hsv_advanced_triples_witness :
  valid_image gray_2x2 = true /\ 0 <= qc 2 1 /\
  exists h w gray,
    intensity luma gray_2x2 = ([], Ok gray) /\ shape gray = [h; w] /\
    length (data gray) = (h * w)%nat /\
    colorize_hsv_advanced luma hsv2rgb_px gray_2x2 (qc 3 10) (qc 2 1) =
    (img_rgb_colorized ←
       hsv2rgb hsv2rgb_px (NdArray [h; w; 3%nat] (data gray ≫= fun I =>
         [ pymod (qc 6 10 - qc 45 100 * I + qc 3 10) 1;
           Sample.clip (qc 4 1 * I * (1 - I) * qc 2 1) 0 1;
           I ]));
     mret (Np.clip img_rgb_colorized 0 1)).
Proof.
  split; [reflexivity|]. split; [by vm_compute|].
  apply (proj1 (hsv_advanced_triples luma hsv2rgb_px gray_2x2 (qc 3 10) (qc 2 1)
                  eq_refl ltac:(by vm_compute))).
Defined.

Lemma outputs_are_unit_rgb_witness :
  valid_image rgb_1x2 = true /\
  exists h w out_hsv out_advanced out_pseudocolor printed,
    (shape rgb_1x2 = [h; w] \/ shape rgb_1x2 = [h; w; 3%nat]) /\
    colorize_hsv luma hsv2rgb_px rgb_1x2 = ([], Ok out_hsv) /\
    colorize_hsv_advanced luma hsv2rgb_px rgb_1x2 (qc 1 4) (qc 3 1) =
      ([], Ok out_advanced) /\
    colorize_pseudocolor luma cm_lookup rgb_1x2 "magma" = (printed, Ok out_pseudocolor) /\
    rgb_unit_field h w out_hsv /\
    rgb_unit_field h w out_advanced /\
    rgb_unit_field h w out_pseudocolor.
Proof.
  split; [reflexivity|].
  apply (outputs_are_unit_rgb luma hsv2rgb_px cm_lookup rgb_1x2). reflexivity.
Defined.

Lemma normalization_contract_witness :
  data gray_2x2 <> [] /\
  exists m,
    Np.max gray_2x2 = ([], Ok m) /\ m ∈ data gray_2x2 /\
    Forall (fun x => x <= m) (data gray_2x2) /\
    (m <= 1 -> img_rgb_normalized gray_2x2 = ([], Ok gray_2x2)) /\
    (Exists (fun x => 1 < x) (data gray_2x2) ->
     img_rgb_normalized gray_2x2 =
     ([], Ok (NdArray (shape gray_2x2) ((fun x => x / qc 255 1) <$> data gray_2x2)))).
Proof.
  split; [done|]. apply (normalization_contract gray_2x2). done.
Defined.

Lemma invalid_image_raises_witness :
  invalid_image rgba_1x1 = true /\
  raises (colorize_hsv luma hsv2rgb_px rgba_1x1) ValueError /\
  raises (colorize_hsv_advanced luma hsv2rgb_px rgba_1x1 0 1) ValueError /\
  raises (colorize_pseudocolor luma cm_lookup rgba_1x1 "jet")
    (if decide (shape rgba_1x1 = []) then TypeError else ValueError) /\
  raises (colorize_pseudocolor_multiple luma cm_lookup rgba_1x1 (Some ["jet"; "hot"]))
    (if decide (shape rgba_1x1 = []) then TypeError else ValueError).
Proof.
  split; [reflexivity|].
  apply (invalid_image_raises luma hsv2rgb_px cm_lookup rgba_1x1). reflexivity.
Defined.

(** C4, as the specification states it, fails: on an image without pixels
    every colorizer raises [ValueError], not [InvalidImageError]. *)
Lemma invalid_image_error_refuted :
  invalid_image empty_image = true /\
  colorize_hsv luma hsv2rgb_px empty_image = ([], Raise ValueError) /\
  colorize_hsv_advanced luma hsv2rgb_px empty_image 0 1 = ([], Raise ValueError) /\
  colorize_pseudocolor luma cm_lookup empty_image "jet" = ([], Raise ValueError) /\
  ~ raises (colorize_hsv luma hsv2rgb_px empty_image) InvalidImageError /\
  ~ raises (colorize_hsv_advanced luma hsv2rgb_px empty_image 0 1) InvalidImageError /\
  ~ raises (colorize_pseudocolor luma cm_lookup empty_image "jet") InvalidImageError.
Proof.
  repeat split; try reflexivity; intros [out Hraise]; discriminate Hraise.
Qed.

Lemma unknown_colormap_falls_back_witness :
  valid_image gray_1x3 = true /\
  dict_in (lower "not-a-real-colormap") COLORMAP_MODES = false /\
  exists out,
    colorize_pseudocolor luma cm_lookup gray_1x3 "jet" = ([], Ok out) /\
    colorize_pseudocolor luma cm_lookup gray_1x3 "not-a-real-colormap" =
    (["Warning: Unknown colormap '" +:+ "not-a-real-colormap" +:+ "', using 'jet' instead."],
     Ok out).
Proof.
  split; [reflexivity|]. split; [reflexivity|].
  apply (unknown_colormap_falls_back luma cm_lookup gray_1x3 "not-a-real-colormap");
    reflexivity.
Defined.

Lemma multiple_maps_each_name_witness :
  valid_image gray_2x2 = true /\
  exists printed results,
    colorize_pseudocolor_multiple luma cm_lookup gray_2x2 (Some ["viridis"; "Hot"; "nope"]) =
      (printed, Ok results) /\
    dom results = list_to_set ["viridis"; "Hot"; "nope"] /\
    forall name, name ∈ ["viridis"; "Hot"; "nope"] ->
      exists printed' r, colorize_pseudocolor luma cm_lookup gray_2x2 name = (printed', Ok r) /\
                         results !! name = Some r.
Proof.
  split; [reflexivity|].
  apply (proj1 (multiple_maps_each_name luma cm_lookup gray_2x2
                  ["viridis"; "Hot"; "nope"] eq_refl)).
Defined.

Lemma colorize_hsv_is_advanced_default_witness :
  valid_image rgb_1x2 = true /\ in_byte_range rgb_1x2 = true /\ luma_unit luma /\
  exists out,
    colorize_hsv luma hsv2rgb_px rgb_1x2 = ([], Ok out) /\
    colorize_hsv_advanced luma hsv2rgb_px rgb_1x2 0 1 = ([], Ok out).
Proof.
  split; [reflexivity|]. split; [reflexivity|]. split; [exact kernel_luma_unit|].
  apply (colorize_hsv_is_advanced_default luma hsv2rgb_px rgb_1x2);
    [reflexivity|reflexivity|exact kernel_luma_unit].
Defined.



Lemma parula_is_viridis_witness :
  valid_image rgb_1x2 = true /\
  exists out,
    colorize_pseudocolor luma cm_lookup rgb_1x2 "parula" = ([], Ok out) /\
    colorize_pseudocolor luma cm_lookup rgb_1x2 "viridis" = ([], Ok out).
Proof.
  split; [reflexivity|].
  apply (parula_is_viridis luma cm_lookup rgb_1x2). reflexivity.
Defined.

End Instances.

(** * The further properties on concrete images *)

Section MoreInstances.
Import Sample Kernels Examples.
Local Open Scope Qc_scope.

Lemma colorize_hsv_domain_witness :
  wf rgba_1x1 /\
  colorize_hsv luma hsv2rgb_px rgba_1x1 = ([], Raise ValueError) /\
  colorize_hsv_advanced luma hsv2rgb_px rgba_1x1 (qc 1 2) 1 = ([], Raise ValueError).
Proof.
  split; [reflexivity|].
  apply (colorize_hsv_domain luma hsv2rgb_px rgba_1x1 (qc 1 2) 1). reflexivity.
Defined.

Lemma colorize_pseudocolor_by_axes_witness :
  wf stack_1x1x4x2 /\ data stack_1x1x4x2 <> [] /\
  exists printed out,
    colorize_pseudocolor luma cm_lookup stack_1x1x4x2 "jet" = (printed, Ok out) /\
    shape out = [1; 1; 3; 2; 4]%nat.
Proof.
  split; [reflexivity|]. split; [done|].
  apply (colorize_pseudocolor_by_axes luma cm_lookup stack_1x1x4x2 "jet");
    [reflexivity|done].
Defined.


Lemma saturation_boost_is_monotone_witness :
  unit (qc 1 4) /\ qc 1 2 <= qc 2 1 /\
  0 <= S_channel (qc 1 2) (qc 1 4) /\
  S_channel (qc 1 2) (qc 1 4) <= S_channel (qc 2 1) (qc 1 4) /\
  S_channel 0 (qc 1 4) = 0.
Proof.
  split; [by vm_compute|]. split; [by vm_compute|].
  apply (saturation_boost_is_monotone (qc 1 4) (qc 1 2) (qc 2 1)); by vm_compute.
Defined.

Lemma colorize_hsv_above_8bit_witness :
  valid_image gray16_1x2 = true /\ shape gray16_1x2 = [1; 2]%nat /\
  data gray16_1x2 !! 1%nat = Some (qc 510 1) /\ qc 255 1 < qc 510 1 /\
  exists img_hsv,
    img_hsv = NdArray [1; 2; 3]%nat
                (((fun x => x / qc 255 1) <$> data gray16_1x2) ≫= fun I =>
                   [qc 6 10 - qc 45 100 * I; qc 4 1 * I * (1 - I); I]) /\
    colorize_hsv luma hsv2rgb_px gray16_1x2 =
      (img_rgb_colorized ← hsv2rgb hsv2rgb_px img_hsv;
       mret (Np.clip img_rgb_colorized 0 1)) /\
    data img_hsv !! (3 * 1 + 1)%nat =
      Some (qc 4 1 * (qc 510 1 / qc 255 1) * (1 - qc 510 1 / qc 255 1)) /\
    data img_hsv !! (3 * 1 + 2)%nat = Some (qc 510 1 / qc 255 1) /\
    qc 4 1 * (qc 510 1 / qc 255 1) * (1 - qc 510 1 / qc 255 1) < 0 /\
    1 < qc 510 1 / qc 255 1.
Proof.
  split; [reflexivity|]. split; [reflexivity|]. split; [reflexivity|].
  split; [by vm_compute|].
  apply (colorize_hsv_above_8bit luma hsv2rgb_px gray16_1x2 1 2 1 (qc 510 1));
    reflexivity.
Defined.

Lemma normalized_image_is_fixed_witness :
  in_byte_range rgb_1x2 = true /\
  img_rgb_normalized rgb_1x2 =
    ([], Ok (Np.map (fun x => x / qc 255 1) rgb_1x2)) /\
  img_rgb_normalized (Np.map (fun x => x / qc 255 1) rgb_1x2) =
    ([], Ok (Np.map (fun x => x / qc 255 1) rgb_1x2)) /\
  colorize_hsv luma hsv2rgb_px (Np.map (fun x => x / qc 255 1) rgb_1x2) =
    colorize_hsv luma hsv2rgb_px rgb_1x2 /\
  colorize_hsv_advanced luma hsv2rgb_px (Np.map (fun x => x / qc 255 1) rgb_1x2)
      (qc 1 3) (qc 2 1) =
    colorize_hsv_advanced luma hsv2rgb_px rgb_1x2 (qc 1 3) (qc 2 1) /\
  colorize_pseudocolor luma cm_lookup (Np.map (fun x => x / qc 255 1) rgb_1x2) "hot" =
    colorize_pseudocolor luma cm_lookup rgb_1x2 "hot".
Proof.
  assert (img_rgb_normalized rgb_1x2 =
            ([], Ok (Np.map (fun x => x / qc 255 1) rgb_1x2))) as Hn
    by reflexivity.
  split; [reflexivity|]. split; [exact Hn|].
  apply (normalized_image_is_fixed luma hsv2rgb_px cm_lookup rgb_1x2 _
           (qc 1 3) (qc 2 1) "hot" eq_refl Hn).
Defined.

Lemma equal_channels_as_grayscale_witness :
  (forall x, luma x x x = x) /\ wf gray_2x2 /\ shape gray_2x2 = [2; 2]%nat /\
  data gray_2x2 <> [] /\
  intensity luma (NdArray [2; 2; 3]%nat (data gray_2x2 ≫= fun x => [x; x; x])) =
    intensity luma gray_2x2 /\
  colorize_hsv luma hsv2rgb_px
      (NdArray [2; 2; 3]%nat (data gray_2x2 ≫= fun x => [x; x; x])) =
    colorize_hsv luma hsv2rgb_px gray_2x2 /\
  colorize_hsv_advanced luma hsv2rgb_px
      (NdArray [2; 2; 3]%nat (data gray_2x2 ≫= fun x => [x; x; x])) (qc 1 5) 1 =
    colorize_hsv_advanced luma hsv2rgb_px gray_2x2 (qc 1 5) 1 /\
  colorize_pseudocolor luma cm_lookup
      (NdArray [2; 2; 3]%nat (data gray_2x2 ≫= fun x => [x; x; x])) "cool" =
    colorize_pseudocolor luma cm_lookup gray_2x2 "cool".
Proof.
  split; [exact kernel_luma_gray|]. split; [reflexivity|]. split; [reflexivity|].
  split; [done|].
  apply (equal_channels_as_grayscale luma hsv2rgb_px cm_lookup gray_2x2 2 2
           (qc 1 5) 1 "cool" kernel_luma_gray); [reflexivity|reflexivity|done].
Defined.

Lemma multiple_depends_on_the_set_of_names_witness :
  valid_image gray_1x3 = true /\
  (forall name, name ∈ ["jet"; "x"; "jet"] <-> name ∈ ["x"; "jet"]) /\
  exists printed printed' results,
    colorize_pseudocolor_multiple luma cm_lookup gray_1x3 (Some ["jet"; "x"; "jet"]) =
      (printed, Ok results) /\
    colorize_pseudocolor_multiple luma cm_lookup gray_1x3 (Some ["x"; "jet"]) =
      (printed', Ok results).
Proof.
  assert (forall name : string, name ∈ ["jet"; "x"; "jet"] <-> name ∈ ["x"; "jet"]) as Hset.
  { intros name. rewrite !elem_of_cons, !elem_of_nil. tauto. }
  split; [reflexivity|]. split; [exact Hset|].
  apply (multiple_depends_on_the_set_of_names luma cm_lookup gray_1x3
           ["jet"; "x"; "jet"] ["x"; "jet"] eq_refl Hset).
Defined.

Lemma multiple_prints_the_warnings_witness :
  valid_image gray_1x3 = true /\
  (colorize_pseudocolor_multiple luma cm_lookup gray_1x3
     (Some ["b"; "Jet"; "a"; "b"])).1 =
  unknown_colormap_warning <$>
    filter (fun name => dict_in (lower name) COLORMAP_MODES = false)
      ["b"; "Jet"; "a"; "b"].
Proof.
  split; [reflexivity|].
  apply (multiple_prints_the_warnings luma cm_lookup gray_1x3 ["b"; "Jet"; "a"; "b"]).
  reflexivity.
Defined.

Lemma registered_name_selects_its_colormap_witness :
  valid_image rgb_1x2 = true /\ (lower "PaRuLa", cm_viridis) ∈ COLORMAP_MODES /\
  exists h w gray,
    intensity luma rgb_1x2 = ([], Ok gray) /\ shape gray = [h; w] /\
    colorize_pseudocolor luma cm_lookup rgb_1x2 "PaRuLa" =
    ([], Ok (NdArray [h; w; 3%nat] (data gray ≫= fun x =>
       let '(r, g, b, _) := cm_lookup cm_viridis x in
       [Sample.clip r 0 1; Sample.clip g 0 1; Sample.clip b 0 1]))).
Proof.
  assert ((lower "PaRuLa", cm_viridis) ∈ COLORMAP_MODES) as Hreg.
  { unfold COLORMAP_MODES.
    repeat (apply elem_of_cons; first [left; reflexivity | right]). }
  split; [reflexivity|]. split; [exact Hreg|].
  apply (registered_name_selects_its_colormap luma cm_lookup rgb_1x2 "PaRuLa"
           cm_viridis eq_refl Hreg).
Defined.

Lemma colorize_hsv_hues_blue_to_yellow_witness :
  valid_image rgb_1x2 = true /\ in_byte_range rgb_1x2 = true /\ luma_unit luma /\
  exists h w gray,
    intensity luma rgb_1x2 = ([], Ok gray) /\ shape gray = [h; w] /\
    colorize_hsv luma hsv2rgb_px rgb_1x2 =
    (img_rgb_colorized ←
       hsv2rgb hsv2rgb_px (NdArray [h; w; 3%nat] (data gray ≫= fun I =>
         [qc 6 10 - qc 45 100 * I; qc 4 1 * I * (1 - I); I]));
     mret (Np.clip img_rgb_colorized 0 1)) /\
    forall p, (p < h * w)%nat ->
      exists H S V,
        (data gray ≫= fun I =>
           [qc 6 10 - qc 45 100 * I; qc 4 1 * I * (1 - I); I]) !! (3 * p)%nat
          = Some H /\
        (data gray ≫= fun I =>
           [qc 6 10 - qc 45 100 * I; qc 4 1 * I * (1 - I); I]) !! (3 * p + 1)%nat
          = Some S /\
        (data gray ≫= fun I =>
           [qc 6 10 - qc 45 100 * I; qc 4 1 * I * (1 - I); I]) !! (3 * p + 2)%nat
          = Some V /\
        qc 15 100 <= H /\ H <= qc 6 10 /\ unit S /\ unit V.
Proof.
  split; [reflexivity|]. split; [reflexivity|]. split; [exact kernel_luma_unit|].
  apply (colorize_hsv_hues_blue_to_yellow luma hsv2rgb_px rgb_1x2 eq_refl eq_refl
           kernel_luma_unit).
Defined.

End MoreInstances.
